(** * Streak ("dragon") detection engine of [src/components/DragonList.tsx]

    A shallow embedding of the streak-detection and row-alignment engine
    and of the change-detecting tracker, with the properties of the
    specification stated and proved over it.

    Conventions of the embedding.
    - A JavaScript [number] that holds a block height, an interval, a row
      count or a streak length is an integer of [Z]; heights are assumed
      to stay in the range where doubles are exact.  [%] is the truncated
      remainder [Z.rem], [Math.floor (a / b)] is [Z.div] for [b <> 0], and
      the non-finite results of a division by zero are written out.
    - A property that may be absent at run time ([undefined]) is an
      [option]; [x || d] on such a property is [jsOr].
    - [Array.prototype.sort] is stable, so a stable insertion sort has the
      same result.
    - [Date.now ()] and [Math.random ()] are read from an explicit
      environment. *)

From Stdlib Require Import ZArith List Bool Sorted Permutation Lia Ascii.
From stdpp Require Import base list strings pretty gmap.
Import ListNotations.

Local Open Scope Z_scope.

(** ** Data model ([src/types.ts] and the interfaces of [DragonList.tsx]) *)

Inductive BlockType := ODD | EVEN.
Inductive SizeType := BIG | SMALL.

(** ['ODD' | 'EVEN' | 'BIG' | 'SMALL'], the union of the two above. *)
Inductive RawType :=
| Parity (t : BlockType)
| Size (s : SizeType).

Inductive DragonType := parity | size.
Inductive DragonMode := trend | bead.

(** [type DragonFilter = 'ALL' | 'ODD' | 'EVEN' | 'BIG' | 'SMALL'] *)
Inductive DragonFilter :=
| ALL
| Only (c : RawType).

#[global] Instance BlockType_eq_dec : EqDecision BlockType.
Proof. solve_decision. Defined.
#[global] Instance SizeType_eq_dec : EqDecision SizeType.
Proof. solve_decision. Defined.
#[global] Instance RawType_eq_dec : EqDecision RawType.
Proof. solve_decision. Defined.
#[global] Instance DragonType_eq_dec : EqDecision DragonType.
Proof. solve_decision. Defined.
#[global] Instance DragonMode_eq_dec : EqDecision DragonMode.
Proof. solve_decision. Defined.

Module Block.
Record t := mk {
  height : Z;
  hash : string;
  resultValue : Z;
  type : BlockType;
  sizeType : SizeType;
  timestamp : string
}.
End Block.
Abbreviation BlockData := Block.t.

(** [IntervalRule].  [startBlock] and [beadRows] are declared [number];
    [None] is the property being absent from the object at run time.
    [dragonThreshold] is read by [DragonList.tsx] but is not a field of the
    declared interface: a rule that carries exactly the declared fields has
    [dragonThreshold = None]. *)
Module Rule.
Record t := mk {
  id : string;
  label : string;
  value : Z;
  startBlock : option Z;
  trendRows : option Z;
  beadRows : option Z;
  dragonThreshold : option Z
}.
End Rule.
Abbreviation IntervalRule := Rule.t.

(** [x || d] for a numeric property [x] that may be [undefined]:
    [undefined] and [0] are falsy. *)
Definition jsOr (x : option Z) (d : Z) : Z :=
  match x with
  | Some v => if v =? 0 then d else v
  | None => d
  end.

Definition epochOf (rule : IntervalRule) : Z := jsOr (Rule.startBlock rule) 0.
Definition intervalOf (rule : IntervalRule) : Z := Rule.value rule.
Definition rowsOf (rule : IntervalRule) : Z := jsOr (Rule.beadRows rule) 6.
Definition thresholdOf (rule : IntervalRule) : Z :=
  jsOr (Rule.dragonThreshold rule) 3.

(** ** Alignment filter *)

(** [checkAlignment] of [rules.forEach], closed over [interval] and [epoch]. *)
Definition checkAlignment (interval epoch height : Z) : bool :=
  if interval <=? 1 then true
  else if 0 <? epoch then
    (epoch <=? height) && (Z.rem (height - epoch) interval =? 0)
  else Z.rem height interval =? 0.

(** [l.sort ((a, b) => key b - key a)]: stable, descending in [key]. *)
Section Sort.
Context {A : Type} (key : A -> Z).

Fixpoint insertDesc (x : A) (l : list A) : list A :=
  match l with
  | [] => [x]
  | y :: l' => if key y <=? key x then x :: l else y :: insertDesc x l'
  end.

Definition sortDesc (l : list A) : list A := foldr insertDesc [] l.

Definition descBy (a b : A) : Prop := key b <= key a.
Definition strictDescBy (a b : A) : Prop := key b < key a.

End Sort.

(** [allBlocks.filter (b => checkAlignment (b.height)).sort (...)] *)
Definition filteredOf (allBlocks : list BlockData) (rule : IntervalRule)
  : list BlockData :=
  sortDesc Block.height
    (List.filter
       (fun b => checkAlignment (intervalOf rule) (epochOf rule) (Block.height b))
       allBlocks).

(** ** Streak calculator *)

(** The two property names [calculateStreak] is called with. *)
Inductive StreakKey := KType | KSizeType.

(** [b[key]] *)
Definition readKey (key : StreakKey) (b : BlockData) : RawType :=
  match key with
  | KType => Parity (Block.type b)
  | KSizeType => Size (Block.sizeType b)
  end.

Module Streak.
Record t := mk {
  value : RawType;
  count : Z
}.
End Streak.

(** [for (const b of l) { if (b[key] === firstVal) count++; else break; }] *)
Fixpoint streakLoop (key : StreakKey) (firstVal : RawType)
  (l : list BlockData) (count : Z) : Z :=
  match l with
  | [] => count
  | b :: l' =>
      if bool_decide (readKey key b = firstVal)
      then streakLoop key firstVal l' (count + 1)
      else count
  end.

(** [calculateStreak]; [None] is the [TypeError] of reading a property of
    [filtered[0]] when the list is empty. *)
Definition calculateStreak (key : StreakKey) (filtered : list BlockData)
  : option Streak.t :=
  match filtered with
  | [] => None
  | b0 :: _ =>
      let firstVal := readKey key b0 in
      Some (Streak.mk firstVal (streakLoop key firstVal filtered 0))
  end.

(** [calcRowStreak]: the same loop over [rowItems]. *)
Definition calcRowStreak (key : StreakKey) (rowItems : list BlockData)
  : option Streak.t :=
  match rowItems with
  | [] => None
  | b0 :: _ =>
      let firstVal := readKey key b0 in
      Some (Streak.mk firstVal (streakLoop key firstVal rowItems 0))
  end.

(** ** Row partitioner *)

(** [Math.floor ((height - epoch) / interval)]; [None] stands for the
    non-finite results ([NaN], [Infinity], [-Infinity]) of [interval = 0]. *)
Definition logicalIdx (interval epoch height : Z) : option Z :=
  if interval =? 0 then None else Some ((height - epoch) / interval).

(** [(logicalIdx % rows) === r]: a non-finite index or [rows = 0] gives
    [NaN], which is equal to no [r]. *)
Definition inRow (interval epoch rows r height : Z) : bool :=
  match logicalIdx interval epoch height with
  | None => false
  | Some idx => if rows =? 0 then false else Z.rem idx rows =? r
  end.

Definition rowItemsOf (interval epoch rows : Z) (filtered : list BlockData)
  (r : Z) : list BlockData :=
  List.filter (fun b => inRow interval epoch rows r (Block.height b)) filtered.

(** ** Pattern aggregator *)

Module Dragon.
Record t := mk {
  ruleId : string;
  ruleName : string;
  type : DragonType;
  mode : DragonMode;
  value : string;
  rawType : RawType;
  count : Z;
  color : string;
  threshold : Z;
  nextHeight : Z;
  rowId : option Z
}.
End Dragon.
Abbreviation DragonInfo := Dragon.t.

(** [FollowedPattern], as [onToggleFollow] builds it. *)
Module Followed.
Record t := mk {
  ruleId : string;
  type : DragonType;
  mode : DragonMode;
  rowId : option Z
}.
End Followed.
Abbreviation FollowedPattern := Followed.t.

Definition displayValue (type : DragonType) (v : RawType) : string :=
  match type with
  | parity => if bool_decide (v = Parity ODD) then "单" else "双"
  | size => if bool_decide (v = Size BIG) then "大" else "小"
  end.

Definition displayColor (type : DragonType) (v : RawType) : string :=
  if bool_decide (v = Parity ODD) || bool_decide (v = Size BIG)
  then match type with
       | parity => "var(--color-odd)"
       | size => "var(--color-big)"
       end
  else match type with
       | parity => "var(--color-even)"
       | size => "var(--color-small)"
       end.

(** [activeFilter === 'ALL' || info.rawType === activeFilter] *)
Definition matchesFilter (activeFilter : DragonFilter) (raw : RawType) : bool :=
  match activeFilter with
  | ALL => true
  | Only c => bool_decide (raw = c)
  end.

(** The three arrays the [useMemo] callback pushes to. *)
Record Results := mkResults {
  trendResults : list DragonInfo;
  beadResults : list DragonInfo;
  watchResults : list DragonInfo
}.

Definition pushIf {A : Type} (c : bool) (x : A) (l : list A) : list A :=
  if c then l ++ [x] else l.

Section Aggregator.
Context (allBlocks : list BlockData) (followedPatterns : list FollowedPattern)
  (activeFilter : DragonFilter).

Section PerRule.
Context (rule : IntervalRule) (threshold : Z).

(** The object literal [info] of [addTrendDragon]. *)
Definition trendInfo (nextHeight : Z) (type : DragonType) (streak : Streak.t)
  : DragonInfo :=
  {| Dragon.ruleId := Rule.id rule;
     Dragon.ruleName := Rule.label rule;
     Dragon.type := type;
     Dragon.mode := trend;
     Dragon.rawType := Streak.value streak;
     Dragon.value := displayValue type (Streak.value streak);
     Dragon.count := Streak.count streak;
     Dragon.color := displayColor type (Streak.value streak);
     Dragon.threshold := threshold;
     Dragon.nextHeight := nextHeight;
     Dragon.rowId := None |}.

Definition isFollowedTrend (type : DragonType) : bool :=
  existsb (fun fp =>
    bool_decide (Followed.ruleId fp = Rule.id rule)
    && bool_decide (Followed.type fp = type)
    && bool_decide (Followed.mode fp = trend)) followedPatterns.

Definition addTrendDragon (nextHeight : Z) (type : DragonType)
  (streak : Streak.t) (res : Results) : Results :=
  let info := trendInfo nextHeight type streak in
  let matches := matchesFilter activeFilter (Dragon.rawType info) in
  {| trendResults :=
       pushIf ((threshold <=? Streak.count streak) && matches) info
         (trendResults res);
     beadResults := beadResults res;
     watchResults :=
       pushIf (isFollowedTrend type && matches) info (watchResults res) |}.

(** The object literal [info] of [addBeadDragon], in row [r]. *)
Definition beadInfo (rowNextHeight r : Z) (type : DragonType)
  (streak : Streak.t) : DragonInfo :=
  {| Dragon.ruleId := Rule.id rule;
     Dragon.ruleName := Rule.label rule;
     Dragon.type := type;
     Dragon.mode := bead;
     Dragon.rawType := Streak.value streak;
     Dragon.value := displayValue type (Streak.value streak);
     Dragon.count := Streak.count streak;
     Dragon.color := displayColor type (Streak.value streak);
     Dragon.threshold := threshold;
     Dragon.nextHeight := rowNextHeight;
     Dragon.rowId := Some (r + 1) |}.

Definition isFollowedBead (r : Z) (type : DragonType) : bool :=
  existsb (fun fp =>
    bool_decide (Followed.ruleId fp = Rule.id rule)
    && bool_decide (Followed.type fp = type)
    && bool_decide (Followed.mode fp = bead)
    && bool_decide (Followed.rowId fp = Some (r + 1))) followedPatterns.

Definition addBeadDragon (rowNextHeight r : Z) (type : DragonType)
  (streak : Streak.t) (res : Results) : Results :=
  let info := beadInfo rowNextHeight r type streak in
  let matches := matchesFilter activeFilter (Dragon.rawType info) in
  {| trendResults := trendResults res;
     beadResults :=
       pushIf ((threshold <=? Streak.count streak) && matches) info
         (beadResults res);
     watchResults :=
       pushIf (isFollowedBead r type && matches) info (watchResults res) |}.

(** The body of [for (let r = 0; r < rows; r++)]. *)
Definition beadRowStep (interval epoch rows : Z) (filtered : list BlockData)
  (r : Z) (res : Results) : option Results :=
  let rowItems := rowItemsOf interval epoch rows filtered r in
  match rowItems with
  | [] => Some res
  | b0 :: _ =>
      rpStreak ← calcRowStreak KType rowItems;
      rsStreak ← calcRowStreak KSizeType rowItems;
      let rowNextHeight := Block.height b0 + interval * rows in
      Some (addBeadDragon rowNextHeight r size rsStreak
              (addBeadDragon rowNextHeight r parity rpStreak res))
  end.

End PerRule.

(** A loop whose body may throw. *)
Fixpoint forEachM {A S : Type} (body : A -> S -> option S) (l : list A)
  (s : S) : option S :=
  match l with
  | [] => Some s
  | x :: l' => s' ← body x s; forEachM body l' s'
  end.

(** The callback of [rules.forEach]. *)
Definition processRule (rule : IntervalRule) (res : Results) : option Results :=
  let epoch := epochOf rule in
  let interval := intervalOf rule in
  let rows := rowsOf rule in
  let filtered := filteredOf allBlocks rule in
  match filtered with
  | [] => Some res
  | b0 :: _ =>
      let threshold := thresholdOf rule in
      let latestHeight := Block.height b0 in
      let nextHeight := latestHeight + interval in
      pStreak ← calculateStreak KType filtered;
      let res := addTrendDragon rule threshold nextHeight parity pStreak res in
      sStreak ← calculateStreak KSizeType filtered;
      let res := addTrendDragon rule threshold nextHeight size sStreak res in
      forEachM (beadRowStep rule threshold interval epoch rows filtered)
        (seqZ 0 rows) res
  end.

(** What the [useMemo] callback returns. *)
Record Dragons := mkDragons {
  trendDragons : list DragonInfo;
  beadRowDragons : list DragonInfo;
  followedResults : list DragonInfo
}.

Definition computeDragons (rules : list IntervalRule) : option Dragons :=
  match allBlocks with
  | [] => Some (mkDragons [] [] [])
  | _ :: _ =>
      res ← forEachM processRule rules (mkResults [] [] []);
      Some {| trendDragons := sortDesc Dragon.count (trendResults res);
              beadRowDragons := sortDesc Dragon.count (beadResults res);
              followedResults := sortDesc Dragon.count (watchResults res) |}
  end.

End Aggregator.

(** ** Change-detecting tracker *)

Definition typeStr (t : DragonType) : string :=
  match t with parity => "parity" | size => "size" end.

Definition modeStr (m : DragonMode) : string :=
  match m with trend => "trend" | bead => "bead" end.

Definition rawStr (c : RawType) : string :=
  match c with
  | Parity ODD => "ODD"
  | Parity EVEN => "EVEN"
  | Size BIG => "BIG"
  | Size SMALL => "SMALL"
  end.

(** [${rowId || ''}]: [undefined] and [0] print as the empty string. *)
Definition rowIdStr (rowId : option Z) : string :=
  match rowId with
  | Some k => if k =? 0 then "" else pretty k
  | None => ""
  end.

(** The identity key, without the length. *)
Definition keyStr (ruleId : string) (t : DragonType) (m : DragonMode)
  (rowId : option Z) (c : RawType) : string :=
  ruleId +:+ "|" +:+ typeStr t +:+ "|" +:+ modeStr m +:+ "|"
    +:+ rowIdStr rowId +:+ "|" +:+ rawStr c.

Definition dragonKey (d : DragonInfo) : string :=
  keyStr (Dragon.ruleId d) (Dragon.type d) (Dragon.mode d) (Dragon.rowId d)
    (Dragon.rawType d).

(** One entry of the fingerprint: the key followed by the length. *)
Definition dragonSignature (d : DragonInfo) : string :=
  dragonKey d +:+ "|" +:+ pretty (Dragon.count d).

(** [Array.prototype.sort ()] on strings: ascending in code-unit order. *)
Fixpoint insertString (x : string) (l : list string) : list string :=
  match l with
  | [] => [x]
  | y :: l' => if String.leb x y then x :: l else y :: insertString x l'
  end.

Definition sortStrings (l : list string) : list string :=
  foldr insertString [] l.

Definition fingerprint (allDragons : list DragonInfo) : string :=
  String.concat ";;" (sortStrings (map dragonSignature allDragons)).

(** [DragonStatRecord], as the tracker builds it. *)
Module StatRecord.
Record t := mk {
  id : string;
  timestamp : Z;
  ruleId : string;
  ruleName : string;
  type : DragonType;
  mode : DragonMode;
  rawType : RawType;
  streakLength : Z;
  rowId : option Z
}.
End StatRecord.
Abbreviation DragonStatRecord := StatRecord.t.

Definition recordKey (r : DragonStatRecord) : string :=
  keyStr (StatRecord.ruleId r) (StatRecord.type r) (StatRecord.mode r)
    (StatRecord.rowId r) (StatRecord.rawType r).

(** What the [i]-th iteration of the loop over [allDragons] reads from
    outside: [Date.now ()] for a time stamp, and [Date.now ()] and
    [Math.random ().toString (36).slice (2, 8)] for a fresh [id]. *)
Record Env := mkEnv {
  nowAt : nat -> Z;
  randomAt : nat -> string;
  idNowAt : nat -> Z
}.

Definition newRecord (env : Env) (i : nat) (dragon : DragonInfo)
  : DragonStatRecord :=
  {| StatRecord.id := pretty (idNowAt env i) +:+ "-" +:+ randomAt env i;
     StatRecord.timestamp := nowAt env i;
     StatRecord.ruleId := Dragon.ruleId dragon;
     StatRecord.ruleName := Dragon.ruleName dragon;
     StatRecord.type := Dragon.type dragon;
     StatRecord.mode := Dragon.mode dragon;
     StatRecord.rawType := Dragon.rawType dragon;
     StatRecord.streakLength := Dragon.count dragon;
     StatRecord.rowId := Dragon.rowId dragon |}.

(** [existing.streakLength = dragon.count; existing.timestamp = Date.now ()] *)
Definition bumpRecord (env : Env) (i : nat) (dragon : DragonInfo)
  (existing : DragonStatRecord) : DragonStatRecord :=
  {| StatRecord.id := StatRecord.id existing;
     StatRecord.timestamp := nowAt env i;
     StatRecord.ruleId := StatRecord.ruleId existing;
     StatRecord.ruleName := StatRecord.ruleName existing;
     StatRecord.type := StatRecord.type existing;
     StatRecord.mode := StatRecord.mode existing;
     StatRecord.rawType := StatRecord.rawType existing;
     StatRecord.streakLength := Dragon.count dragon;
     StatRecord.rowId := StatRecord.rowId existing |}.

(** The body of [for (const dragon of allDragons)] on the array [updated]:
    [updated.find] gives the first record with the key. *)
Definition applyDragon (env : Env) (i : nat) (dragon : DragonInfo)
  (updated : list DragonStatRecord) : list DragonStatRecord :=
  let key := dragonKey dragon in
  match list_find (fun r => recordKey r = key) updated with
  | Some (idx, existing) =>
      if StatRecord.streakLength existing <? Dragon.count dragon
      then <[idx := bumpRecord env i dragon existing]> updated
      else updated
  | None => updated ++ [newRecord env i dragon]
  end.

Fixpoint updateLoop (env : Env) (i : nat) (allDragons : list DragonInfo)
  (updated : list DragonStatRecord) : list DragonStatRecord :=
  match allDragons with
  | [] => updated
  | dragon :: rest => updateLoop env (S i) rest (applyDragon env i dragon updated)
  end.

(** The argument of a call of [debouncedSaveDragonStats]. *)
Record SavePayload := mkSave {
  records : list DragonStatRecord;
  savedTracking : bool
}.

(** State of the component that the tracker reads and writes, with the
    calls made to the persistence client. *)
Record Tracker := mkTracker {
  dragonRecords : list DragonStatRecord;
  isTracking : bool;
  prevDragonsRef : string;
  isInitializedRef : bool;
  saveCalls : list SavePayload;
  clearCalls : nat
}.

Definition initialTracker : Tracker :=
  {| dragonRecords := []; isTracking := false; prevDragonsRef := "";
     isInitializedRef := false; saveCalls := []; clearCalls := 0%nat |}.

(** The effect that depends on [trendDragons], [beadRowDragons] and
    [isTracking]. *)
Definition trackingEffect (env : Env) (tds bds : list DragonInfo)
  (st : Tracker) : Tracker :=
  if negb (isTracking st) || negb (isInitializedRef st) then st
  else
    let allDragons := tds ++ bds in
    let fp := fingerprint allDragons in
    if String.eqb fp (prevDragonsRef st) then st
    else
      let updated := updateLoop env 0 allDragons (dragonRecords st) in
      {| dragonRecords := updated;
         isTracking := isTracking st;
         prevDragonsRef := fp;
         isInitializedRef := isInitializedRef st;
         saveCalls := saveCalls st ++ [mkSave updated true];
         clearCalls := clearCalls st |}.

(** The effect run on mount, once [loadDragonStats] has resolved with
    [saved] ([None] for [null]); a saved list is [None] when absent. *)
Definition loadEffect (saved : option (option (list DragonStatRecord) * bool))
  (st : Tracker) : Tracker :=
  let recs :=
    match saved with
    | Some (Some r, _) => r
    | _ => dragonRecords st
    end in
  let tracking :=
    match saved with
    | Some (_, true) => true
    | _ => isTracking st
    end in
  {| dragonRecords := recs; isTracking := tracking;
     prevDragonsRef := prevDragonsRef st; isInitializedRef := true;
     saveCalls := saveCalls st; clearCalls := clearCalls st |}.

Definition handleStartTracking (st : Tracker) : Tracker :=
  {| dragonRecords := dragonRecords st; isTracking := true;
     prevDragonsRef := ""; isInitializedRef := isInitializedRef st;
     saveCalls := saveCalls st ++ [mkSave (dragonRecords st) true];
     clearCalls := clearCalls st |}.

Definition handleStopTracking (st : Tracker) : Tracker :=
  {| dragonRecords := dragonRecords st; isTracking := false;
     prevDragonsRef := prevDragonsRef st;
     isInitializedRef := isInitializedRef st;
     saveCalls := saveCalls st ++ [mkSave (dragonRecords st) false];
     clearCalls := clearCalls st |}.

(** [handleClearStats]: [confirmed] is the answer of [window.confirm],
    [remoteOk] the value [clearDragonStatsAPI] resolves with, which the
    handler awaits and drops. *)
Definition handleClearStats (confirmed remoteOk : bool) (st : Tracker)
  : Tracker :=
  if negb confirmed then st
  else
    {| dragonRecords := []; isTracking := isTracking st;
       prevDragonsRef := ""; isInitializedRef := isInitializedRef st;
       saveCalls := saveCalls st; clearCalls := S (clearCalls st) |}.

(** One evaluation of the component: the memoised aggregation, then the
    tracking effect on its two main lists. *)
Definition evaluate (env : Env) (allBlocks : list BlockData)
  (rules : list IntervalRule) (followedPatterns : list FollowedPattern)
  (activeFilter : DragonFilter) (st : Tracker) : Tracker :=
  match computeDragons allBlocks followedPatterns activeFilter rules with
  | Some out => trackingEffect env (trendDragons out) (beadRowDragons out) st
  | None => st
  end.

(** The events that drive the tracker between a load and a clear. *)
Inductive TrackerEvent :=
| EvTrack (env : Env) (tds bds : list DragonInfo)
| EvStart
| EvStop.

Definition stepTracker (st : Tracker) (ev : TrackerEvent) : Tracker :=
  match ev with
  | EvTrack env tds bds => trackingEffect env tds bds st
  | EvStart => handleStartTracking st
  | EvStop => handleStopTracking st
  end.

Definition runTracker (evs : list TrackerEvent) (st : Tracker) : Tracker :=
  foldl stepTracker st evs.

(** ** Views of the aggregation used in the statements

    The list of every [info] object the aggregation builds, before any
    gate is applied, and the gates of [addTrendDragon] and [addBeadDragon]
    as predicates on an [info]. *)

Definition rowObservations (rule : IntervalRule) (filtered : list BlockData)
  (r : Z) : list DragonInfo :=
  let rowItems :=
    rowItemsOf (intervalOf rule) (epochOf rule) (rowsOf rule) filtered r in
  match rowItems with
  | [] => []
  | b0 :: _ =>
      let next := Block.height b0 + intervalOf rule * rowsOf rule in
      let streakOf key :=
        Streak.mk (readKey key b0) (streakLoop key (readKey key b0) rowItems 0) in
      [beadInfo rule (thresholdOf rule) next r parity (streakOf KType);
       beadInfo rule (thresholdOf rule) next r size (streakOf KSizeType)]
  end.

Definition ruleObservations (allBlocks : list BlockData) (rule : IntervalRule)
  : list DragonInfo :=
  let filtered := filteredOf allBlocks rule in
  match filtered with
  | [] => []
  | b0 :: _ =>
      let next := Block.height b0 + intervalOf rule in
      let streakOf key :=
        Streak.mk (readKey key b0) (streakLoop key (readKey key b0) filtered 0) in
      [trendInfo rule (thresholdOf rule) next parity (streakOf KType);
       trendInfo rule (thresholdOf rule) next size (streakOf KSizeType)]
      ++ flat_map (rowObservations rule filtered) (seqZ 0 (rowsOf rule))
  end.

Definition allObservations (allBlocks : list BlockData)
  (rules : list IntervalRule) : list DragonInfo :=
  flat_map (ruleObservations allBlocks) rules.

Definition hasMode (m : DragonMode) (d : DragonInfo) : bool :=
  bool_decide (Dragon.mode d = m).

(** [streak.count >= threshold && matchesFilter] *)
Definition admitMain (activeFilter : DragonFilter) (d : DragonInfo) : bool :=
  (Dragon.threshold d <=? Dragon.count d)
  && matchesFilter activeFilter (Dragon.rawType d).

(** The watched pattern [fp] names the signature of [d]; the row is
    compared in row mode only. *)
Definition followsDragon (d : DragonInfo) (fp : FollowedPattern) : bool :=
  bool_decide (Followed.ruleId fp = Dragon.ruleId d)
  && bool_decide (Followed.type fp = Dragon.type d)
  && bool_decide (Followed.mode fp = Dragon.mode d)
  && match Dragon.mode d with
     | trend => true
     | bead => bool_decide (Followed.rowId fp = Dragon.rowId d)
     end.

Definition isFollowed (followedPatterns : list FollowedPattern)
  (d : DragonInfo) : bool :=
  existsb (followsDragon d) followedPatterns.

(** [isFollowed && matchesFilter] *)
Definition admitWatch (followedPatterns : list FollowedPattern)
  (activeFilter : DragonFilter) (d : DragonInfo) : bool :=
  isFollowed followedPatterns d
  && matchesFilter activeFilter (Dragon.rawType d).

(** [[...trendDragons, ...beadRowDragons]], the list the tracker reads. *)
Definition allDragonsOf (out : Dragons) : list DragonInfo :=
  trendDragons out ++ beadRowDragons out.

(** The results after the gates have been applied to a list of [info]
    objects, in their order. *)
Definition collect (followedPatterns : list FollowedPattern)
  (activeFilter : DragonFilter) (obs : list DragonInfo) (res : Results)
  : Results :=
  {| trendResults :=
       trendResults res
       ++ List.filter (fun d => hasMode trend d && admitMain activeFilter d) obs;
     beadResults :=
       beadResults res
       ++ List.filter (fun d => hasMode bead d && admitMain activeFilter d) obs;
     watchResults :=
       watchResults res
       ++ List.filter (admitWatch followedPatterns activeFilter) obs |}.

(** ** Views of the record store used in the statements *)

(** [r'] is a later state of the record [r]: the same identity and
    signature, a length that did not decrease, and no change at all unless
    the length grew. *)
Definition advances (r r' : DragonStatRecord) : Prop :=
  StatRecord.id r' = StatRecord.id r
  /\ recordKey r' = recordKey r
  /\ StatRecord.streakLength r <= StatRecord.streakLength r'
  /\ (StatRecord.streakLength r' = StatRecord.streakLength r -> r' = r).

(** A record that this run created, possibly lengthened since. *)
Definition createdBy (env : Env) (allDragons : list DragonInfo)
  (r : DragonStatRecord) : Prop :=
  exists k d, In d allDragons /\ advances (newRecord env k d) r.

(** No ['|'] occurs in the string. *)
Fixpoint noBar (s : string) : bool :=
  match s with
  | EmptyString => true
  | String c s' => negb (Ascii.eqb c "|") && noBar s'
  end.

(** Blocks and rules for the worked examples. *)
Definition blk (h : Z) (t : BlockType) (s : SizeType) : BlockData :=
  Block.mk h "" 0 t s "".

Definition mkRule (id : string) (interval startBlock beadRows : Z)
  : IntervalRule :=
  Rule.mk id id interval (Some startBlock) (Some 6) (Some beadRows) None.

(** ** Statistics panel ([statsData]) *)

(** [{ ODD: 0, EVEN: 0, BIG: 0, SMALL: 0 }] *)
Record RawCounts := mkRawCounts {
  cODD : Z;
  cEVEN : Z;
  cBIG : Z;
  cSMALL : Z
}.

(** [{ trend: 0, bead: 0 }] *)
Record ModeCounts := mkModeCounts {
  cTrend : Z;
  cBead : Z
}.

(** [counts[rawType]++] *)
Definition bumpRaw (c : RawType) (n : RawCounts) : RawCounts :=
  match c with
  | Parity ODD => mkRawCounts (cODD n + 1) (cEVEN n) (cBIG n) (cSMALL n)
  | Parity EVEN => mkRawCounts (cODD n) (cEVEN n + 1) (cBIG n) (cSMALL n)
  | Size BIG => mkRawCounts (cODD n) (cEVEN n) (cBIG n + 1) (cSMALL n)
  | Size SMALL => mkRawCounts (cODD n) (cEVEN n) (cBIG n) (cSMALL n + 1)
  end.

Definition rawCount (c : RawType) (n : RawCounts) : Z :=
  match c with
  | Parity ODD => cODD n
  | Parity EVEN => cEVEN n
  | Size BIG => cBIG n
  | Size SMALL => cSMALL n
  end.

(** [counts[mode]++] *)
Definition bumpMode (m : DragonMode) (n : ModeCounts) : ModeCounts :=
  match m with
  | trend => mkModeCounts (cTrend n + 1) (cBead n)
  | bead => mkModeCounts (cTrend n) (cBead n + 1)
  end.

(** [rec.streakLength >= 10 ? '10+' : String (rec.streakLength)] *)
Definition streakKeyOf (streakLength : Z) : string :=
  if 10 <=? streakLength then "10+" else pretty streakLength.

(** [byStreak[k] = (byStreak[k] || 0) + 1] on an object used as a map
    from bucket names to counts. *)
Definition bumpStreak (k : string) (m : gmap string Z) : gmap string Z :=
  <[k := jsOr (m !! k) 0 + 1]> m.

(** The value of [byRule[ruleId]]. *)
Record RuleStats := mkRuleStats {
  rsRuleName : string;
  rsTotal : Z;
  rsMode : ModeCounts;
  rsByRawType : RawCounts;
  rsByStreak : gmap string Z
}.

Definition initRuleStats (ruleName : string) : RuleStats :=
  mkRuleStats ruleName 0 (mkModeCounts 0 0) (mkRawCounts 0 0 0 0) ∅.

(** The updates of [ruleStats] for one record. *)
Definition bumpRuleStats (rec : DragonStatRecord) (rs : RuleStats) : RuleStats :=
  {| rsRuleName := rsRuleName rs;
     rsTotal := rsTotal rs + 1;
     rsMode := bumpMode (StatRecord.mode rec) (rsMode rs);
     rsByRawType := bumpRaw (StatRecord.rawType rec) (rsByRawType rs);
     rsByStreak :=
       bumpStreak (streakKeyOf (StatRecord.streakLength rec)) (rsByStreak rs) |}.

(** The object [statsData] returns. *)
Record Stats := mkStats {
  byRawType : RawCounts;
  byMode : ModeCounts;
  byStreak : gmap string Z;
  byRule : gmap string RuleStats;
  total : Z
}.

(** The names [{}] inherits from [Object.prototype].  [byRule[name]] is
    then an inherited value, which is truthy and has no [byRawType]. *)
Definition protoKey (s : string) : bool :=
  bool_decide
    (s ∈ ["constructor"; "__proto__"; "hasOwnProperty"; "isPrototypeOf";
          "propertyIsEnumerable"; "toString"; "toLocaleString"; "valueOf";
          "__defineGetter__"; "__defineSetter__"; "__lookupGetter__";
          "__lookupSetter__"]).

(** The body of [for (const rec of dragonRecords)]; [None] is the
    [TypeError] of [ruleStats.byRawType[rec.rawType]] when [ruleStats] is
    an inherited value. *)
Definition statsStep (rec : DragonStatRecord) (acc : Stats) : option Stats :=
  if protoKey (StatRecord.ruleId rec) then None
  else
    let ruleStats :=
      match byRule acc !! StatRecord.ruleId rec with
      | Some rs => rs
      | None => initRuleStats (StatRecord.ruleName rec)
      end in
    Some
      {| byRawType := bumpRaw (StatRecord.rawType rec) (byRawType acc);
         byMode := bumpMode (StatRecord.mode rec) (byMode acc);
         byStreak :=
           bumpStreak (streakKeyOf (StatRecord.streakLength rec)) (byStreak acc);
         byRule :=
           <[StatRecord.ruleId rec := bumpRuleStats rec ruleStats]> (byRule acc);
         total := total acc |}.

Definition initStats : Stats :=
  mkStats (mkRawCounts 0 0 0 0) (mkModeCounts 0 0) ∅ ∅ 0.

Inductive StatsResult :=
| StatsThrows
| StatsNull
| StatsData (s : Stats).

(** [statsData]: [null] for no record, else the four aggregates and the
    number of records. *)
Definition statsData (dragonRecords : list DragonStatRecord) : StatsResult :=
  match dragonRecords with
  | [] => StatsNull
  | _ :: _ =>
      match
        forEachM statsStep dragonRecords initStats
      with
      | None => StatsThrows
      | Some s =>
          StatsData
            {| byRawType := byRawType s; byMode := byMode s;
               byStreak := byStreak s; byRule := byRule s;
               total := Z.of_nat (length dragonRecords) |}
      end
  end.

(** [streakKeys], the buckets the panel shows. *)
Definition streakKeys : list string :=
  ["3"; "4"; "5"; "6"; "7"; "8"; "9"; "10+"].

(** [statsData.byStreak[k] || 0] *)
Definition shownCount (m : gmap string Z) (k : string) : Z := jsOr (m !! k) 0.

(** ** Cards ([renderDragonCard]) *)

(** [isFollowed] of a card: here the row is compared in both modes. *)
Definition cardIsFollowed (followedPatterns : list FollowedPattern)
  (dragon : DragonInfo) : bool :=
  existsb (fun fp =>
    bool_decide (Followed.ruleId fp = Dragon.ruleId dragon)
    && bool_decide (Followed.type fp = Dragon.type dragon)
    && bool_decide (Followed.mode fp = Dragon.mode dragon)
    && bool_decide (Followed.rowId fp = Dragon.rowId dragon)) followedPatterns.

(** The pattern [handleFollowClick] hands to [onToggleFollow]. *)
Definition handleFollowClick (dragon : DragonInfo) : FollowedPattern :=
  {| Followed.ruleId := Dragon.ruleId dragon;
     Followed.type := Dragon.type dragon;
     Followed.mode := Dragon.mode dragon;
     Followed.rowId := Dragon.rowId dragon |}.

(** ** Persistence client ([src/services/dragonStatsApi.ts]) *)

(** [debounce (func, wait)]: the state is the armed timer with the
    arguments it will pass.  A call disarms the timer and arms a new one;
    the timer running out is the separate event [debounceFire], which
    gives the call of [func] to make.  How long that takes is not
    modelled. *)
Definition debounceCall {A : Type} (args : A) (timeout : option A) : option A :=
  Some args.

Definition debounceFire {A : Type} (timeout : option A) : option A * option A :=
  (timeout, None).

(** The requests the client sends. *)
Inductive Request :=
| POST (body : SavePayload)
| DELETE.

(** The component with the timer of [debouncedSaveDragonStats] and the
    requests sent so far. *)
Record System := mkSystem {
  component : Tracker;
  saveTimer : option SavePayload;
  requests : list Request
}.

(** The calls of [debouncedSaveDragonStats] a handler has added. *)
Definition newSaveCalls (st st' : Tracker) : list SavePayload :=
  drop (length (saveCalls st)) (saveCalls st').

Definition armAll (calls : list SavePayload) (timeout : option SavePayload)
  : option SavePayload :=
  foldl (fun t c => debounceCall c t) timeout calls.

Inductive SystemEvent :=
| SysTracker (ev : TrackerEvent)
| SysClear (confirmed remoteOk : bool)
| SysTimer.

Definition stepSystem (sys : System) (ev : SystemEvent) : System :=
  match ev with
  | SysTracker e =>
      let st' := stepTracker (component sys) e in
      {| component := st';
         saveTimer := armAll (newSaveCalls (component sys) st') (saveTimer sys);
         requests := requests sys |}
  | SysClear confirmed remoteOk =>
      {| component := handleClearStats confirmed remoteOk (component sys);
         saveTimer := saveTimer sys;
         requests := if confirmed then requests sys ++ [DELETE] else requests sys |}
  | SysTimer =>
      match debounceFire (saveTimer sys) with
      | (Some body, t) =>
          {| component := component sys; saveTimer := t;
             requests := requests sys ++ [POST body] |}
      | (None, t) =>
          {| component := component sys; saveTimer := t;
             requests := requests sys |}
      end
  end.

Definition runSystem (evs : list SystemEvent) (sys : System) : System :=
  foldl stepSystem sys evs.

(** What a card shows for a class. *)
Definition classShown (d : DragonInfo) : Prop :=
  match Dragon.rawType d with
  | Parity ODD =>
      Dragon.type d = parity /\ Dragon.value d = "单"
      /\ Dragon.color d = "var(--color-odd)"
  | Parity EVEN =>
      Dragon.type d = parity /\ Dragon.value d = "双"
      /\ Dragon.color d = "var(--color-even)"
  | Size BIG =>
      Dragon.type d = size /\ Dragon.value d = "大"
      /\ Dragon.color d = "var(--color-big)"
  | Size SMALL =>
      Dragon.type d = size /\ Dragon.value d = "小"
      /\ Dragon.color d = "var(--color-small)"
  end.

(** The per-rule entry the loop builds from the records of one rule. *)
Definition ruleStatsOf (sub : list DragonStatRecord) : option RuleStats :=
  match sub with
  | [] => None
  | r0 :: _ =>
      Some (foldl (fun rs rec => bumpRuleStats rec rs)
              (initRuleStats (StatRecord.ruleName r0)) sub)
  end.

Definition recordsOfRule (ruleId : string) (recs : list DragonStatRecord)
  : list DragonStatRecord :=
  List.filter (fun r => bool_decide (StatRecord.ruleId r = ruleId)) recs.

(** The entry [byRule[id]] after one more record of that rule. *)
Definition stepRule (o : option RuleStats) (rec : DragonStatRecord)
  : option RuleStats :=
  Some (bumpRuleStats rec
          match o with
          | Some rs => rs
          | None => initRuleStats (StatRecord.ruleName rec)
          end).

(** The sum of the buckets the panel shows. *)
Definition shownTotal (m : gmap string Z) : Z :=
  foldr Z.add 0 (map (shownCount m) streakKeys).

(** The event is a run of the tracking effect. *)
Definition isTrackEvent (ev : TrackerEvent) : bool :=
  match ev with
  | EvTrack _ _ _ => true
  | _ => false
  end.

(** What the request of [loadDragonStats] comes back with: a rejected
    [fetch] or a body that is no JSON, or the parsed body with its
    [success] flag and its [data], a saved list and tracking flag. *)
Inductive LoadResponse :=
| LoadFails
| LoadJson (success : bool) (data : option (option (list DragonStatRecord) * bool)).

(** [loadDragonStats]: the data of a successful answer, else [null]. *)
Definition loadDragonStats (resp : LoadResponse)
  : option (option (list DragonStatRecord) * bool) :=
  match resp with
  | LoadJson true (Some data) => Some data
  | _ => None
  end.

(** The effect run on mount, from the answer of the request on. *)
Definition mountEffect (resp : LoadResponse) (st : Tracker) : Tracker :=
  loadEffect (loadDragonStats resp) st.

(** The answer of a backend that stores the body of a POST as it is. *)
Definition storedAnswer (body : SavePayload) : LoadResponse :=
  LoadJson true (Some (Some (records body), savedTracking body)).

(** ** Axis labels of the trend chart (the second component of
    [src/services/dragonStatsApi.ts]) *)

Section AxisLabels.
Local Open Scope nat_scope.

(** [for (let i = 0; i < n; i += step) indices.push (i)], from [i] on;
    [fuel] bounds the number of iterations. *)
Fixpoint labelLoop (fuel n step i : nat) : list nat :=
  match fuel with
  | O => []
  | S fuel' =>
      if i <? n then i :: labelLoop fuel' n step (i + step) else []
  end.

(** The indices of the points that get a label under the axis, for a
    chart of [n] points; nothing is drawn for [n = 0]. *)
Definition xLabelIndices (n : nat) : list nat :=
  if 0 <? n then
    let step := Nat.max 1 (n / 6) in
    let indices := labelLoop n n step 0 in
    if bool_decide (last indices = Some (n - 1)) then indices
    else indices ++ [n - 1]
  else [].

End AxisLabels.

(** ** Counting, for the statements *)

Definition countIf {A : Type} (p : A -> bool) (l : list A) : Z :=
  Z.of_nat (length (List.filter p l)).

(** The last call of [debouncedSaveDragonStats], if any, carried the
    present records and tracking flag. *)
Definition lastSaveCurrent (st : Tracker) : Prop :=
  match last (saveCalls st) with
  | None => True
  | Some p => records p = dragonRecords st /\ savedTracking p = isTracking st
  end.

(** * Properties *)

(** ** The stable descending sort *)

Section SortFacts.
Context {A : Type} (key : A -> Z).
Implicit Types (x : A) (l : list A).

Lemma insertDesc_perm x l : Permutation (x :: l) (insertDesc key x l).
Proof.
  induction l as [|y l IH]; simpl; [reflexivity|].
  destruct (key y <=? key x); [reflexivity|].
  rewrite perm_swap. now apply perm_skip.
Qed.

Lemma sortDesc_perm l : Permutation l (sortDesc key l).
Proof.
  induction l as [|x l IH]; simpl; [constructor|].
  rewrite <- insertDesc_perm. now apply perm_skip.
Qed.

Lemma sortDesc_In x l : In x (sortDesc key l) <-> In x l.
Proof.
  split; apply Permutation_in; [symmetry|]; apply sortDesc_perm.
Qed.

Lemma insertDesc_sorted x l :
  StronglySorted (descBy key) l -> StronglySorted (descBy key) (insertDesc key x l).
Proof.
  induction 1 as [|y l Hs IH Hall]; simpl.
  - repeat constructor.
  - destruct (Z.leb_spec (key y) (key x)) as [Hle|Hlt].
    + constructor; [now constructor|].
      constructor; [exact Hle|].
      eapply List.Forall_impl; [|exact Hall].
      unfold descBy; intros; lia.
    + constructor; [exact IH|].
      rewrite <- insertDesc_perm.
      constructor; [unfold descBy; lia | exact Hall].
Qed.

Lemma sortDesc_sorted l : StronglySorted (descBy key) (sortDesc key l).
Proof.
  induction l as [|x l IH]; simpl; [constructor|].
  now apply insertDesc_sorted.
Qed.

(** With pairwise distinct keys the order is strict. *)
Lemma sorted_strict l :
  List.NoDup (map key l) ->
  StronglySorted (descBy key) l -> StronglySorted (strictDescBy key) l.
Proof.
  induction l as [|x l IH]; intros Hnd Hs; [constructor|].
  simpl in Hnd. apply List.NoDup_cons_iff in Hnd as [Hx Hnd].
  apply StronglySorted_inv in Hs as [Hs Hall].
  constructor; [now apply IH|].
  rewrite List.Forall_forall in Hall |- *.
  intros y Hy. specialize (Hall y Hy). unfold descBy, strictDescBy in *.
  assert (key y <> key x); [|lia].
  intros Heq. apply Hx. rewrite <- Heq. now apply in_map.
Qed.

Lemma sortDesc_strict l :
  List.NoDup (map key l) -> StronglySorted (strictDescBy key) (sortDesc key l).
Proof.
  intros Hnd. apply sorted_strict; [|apply sortDesc_sorted].
  eapply Permutation_NoDup; [|exact Hnd].
  apply Permutation_map, sortDesc_perm.
Qed.


Lemma insertDesc_head x l :
  Forall (fun y => key y <= key x) l -> insertDesc key x l = x :: l.
Proof.
  destruct l as [|y l]; simpl; [reflexivity|].
  intros H. apply List.Forall_inv in H.
  destruct (Z.leb_spec (key y) (key x)); [reflexivity | lia].
Qed.

(** A sorted list is left as it is. *)
Lemma sortDesc_sorted_id l : StronglySorted (descBy key) l -> sortDesc key l = l.
Proof.
  unfold sortDesc.
  induction 1 as [|x l Hs IH Hall]; simpl; [reflexivity|].
  rewrite IH. apply insertDesc_head.
  eapply List.Forall_impl; [|exact Hall]. unfold descBy; intros; lia.
Qed.

(** Filtering commutes with the stable sort. *)
Lemma insertDesc_filter (p : A -> bool) x l :
  StronglySorted (descBy key) l ->
  List.filter p (insertDesc key x l) =
  if p x then insertDesc key x (List.filter p l) else List.filter p l.
Proof.
  induction 1 as [|y l Hs IH Hall]; simpl.
  - now destruct (p x).
  - destruct (Z.leb_spec (key y) (key x)) as [Hle|Hlt]; simpl.
    + destruct (p x) eqn:Hx; [|reflexivity].
      destruct (p y) eqn:Hy; simpl.
      * destruct (Z.leb_spec (key y) (key x)); [reflexivity | lia].
      * rewrite insertDesc_head; [reflexivity|].
        apply List.Forall_forall. intros z Hz.
        apply filter_In in Hz as [Hz _].
        rewrite List.Forall_forall in Hall. specialize (Hall z Hz).
        unfold descBy in Hall. lia.
    + rewrite IH. destruct (p x), (p y); simpl; try reflexivity.
      destruct (Z.leb_spec (key y) (key x)); [lia | reflexivity].
Qed.

Lemma sortDesc_filter (p : A -> bool) l :
  List.filter p (sortDesc key l) = sortDesc key (List.filter p l).
Proof.
  induction l as [|x l IH]; [reflexivity|].
  change (sortDesc key (x :: l)) with (insertDesc key x (sortDesc key l)).
  rewrite insertDesc_filter by apply sortDesc_sorted.
  rewrite IH. simpl. now destruct (p x).
Qed.

End SortFacts.

(** ** Alignment filter *)

Lemma rem_zero_iff_mod_zero a b : b <> 0 -> Z.rem a b = 0 <-> a mod b = 0.
Proof.
  intros Hb. rewrite Z.rem_divide, Z.mod_divide by exact Hb. reflexivity.
Qed.

Lemma checkAlignment_spec interval epoch h :
  0 <= epoch ->
  checkAlignment interval epoch h = true <->
  (interval <= 1
   \/ (epoch > 0 /\ h >= epoch /\ (h - epoch) mod interval = 0)
   \/ (epoch = 0 /\ h mod interval = 0)).
Proof.
  intros Hepoch. unfold checkAlignment.
  destruct (Z.leb_spec interval 1) as [Hi|Hi]; [intuition lia|].
  destruct (Z.ltb_spec 0 epoch) as [He|He].
  - rewrite andb_true_iff, Z.leb_le, Z.eqb_eq, rem_zero_iff_mod_zero by lia.
    intuition lia.
  - rewrite Z.eqb_eq, rem_zero_iff_mod_zero by lia. intuition lia.
Qed.

Lemma filteredOf_In allBlocks rule b :
  In b (filteredOf allBlocks rule) <->
  In b allBlocks /\
  checkAlignment (intervalOf rule) (epochOf rule) (Block.height b) = true.
Proof. unfold filteredOf. rewrite sortDesc_In, filter_In. reflexivity. Qed.

(** C1, as amended: the alignment filter keeps exactly the blocks on the
    rule's lattice ([interval <= 1]; or [startOffset > 0], the height at
    or above it and [(height - startOffset) mod interval = 0]; or
    [startOffset = 0] and [height mod interval = 0]), and its result is
    ordered by descending height, strictly so when the heights of the
    input blocks are pairwise distinct. *)
Theorem alignment_filter_spec allBlocks rule :
  0 <= epochOf rule ->
  (forall b,
     In b (filteredOf allBlocks rule) <->
     In b allBlocks /\
     (intervalOf rule <= 1
      \/ (epochOf rule > 0 /\ Block.height b >= epochOf rule
          /\ (Block.height b - epochOf rule) mod intervalOf rule = 0)
      \/ (epochOf rule = 0 /\ Block.height b mod intervalOf rule = 0)))
  /\ StronglySorted (descBy Block.height) (filteredOf allBlocks rule)
  /\ (List.NoDup (map Block.height allBlocks) ->
      StronglySorted (strictDescBy Block.height) (filteredOf allBlocks rule)).
Proof.
  intros Hepoch. split; [|split].
  - intros b. rewrite filteredOf_In, checkAlignment_spec by exact Hepoch.
    reflexivity.
  - apply sortDesc_sorted.
  - intros Hnd. apply sortDesc_strict.
    set (p := fun b => checkAlignment _ _ (Block.height b)).
    clearbody p. clear Hepoch.
    induction allBlocks as [|x l IH]; simpl in *; [constructor|].
    apply List.NoDup_cons_iff in Hnd as [Hx Hnd].
    destruct (p x); simpl; [|now apply IH].
    constructor; [|now apply IH].
    rewrite in_map_iff. intros (y & Hy & Hin). apply Hx.
    rewrite <- Hy. apply in_map. apply filter_In in Hin. tauto.
Qed.

(** Two blocks at one height are both kept, so the order of the result is
    not strict: C1 as stated fails on this input. *)
Lemma alignment_filter_not_strict :
  ~ StronglySorted (strictDescBy Block.height)
      (filteredOf [blk 5 ODD BIG; blk 5 EVEN SMALL] (mkRule "r" 1 0 6)).
Proof.
  assert (E : filteredOf [blk 5 ODD BIG; blk 5 EVEN SMALL] (mkRule "r" 1 0 6)
              = [blk 5 ODD BIG; blk 5 EVEN SMALL]) by reflexivity.
  rewrite E. intros H.
  apply StronglySorted_inv in H as [_ H].
  apply List.Forall_inv in H. unfold strictDescBy in H. simpl in H. lia.
Qed.

Lemma alignment_filter_spec_witness :
  0 <= epochOf (mkRule "r" 3 0 6)
  /\ List.NoDup (map Block.height [blk 3 ODD BIG; blk 9 EVEN BIG; blk 7 ODD SMALL])
  /\ StronglySorted (strictDescBy Block.height)
       (filteredOf [blk 3 ODD BIG; blk 9 EVEN BIG; blk 7 ODD SMALL]
          (mkRule "r" 3 0 6)).
Proof.
  assert (Hepoch : 0 <= epochOf (mkRule "r" 3 0 6)) by (vm_compute; discriminate).
  assert (Hnd : List.NoDup
            (map Block.height [blk 3 ODD BIG; blk 9 EVEN BIG; blk 7 ODD SMALL])).
  { simpl. repeat constructor; simpl; intuition discriminate. }
  split; [exact Hepoch|]. split; [exact Hnd|].
  exact (proj2 (proj2 (alignment_filter_spec _ _ Hepoch)) Hnd).
Defined.

(** ** Streak calculator *)

Lemma streakLoop_spec key v l c :
  exists n : nat,
    streakLoop key v l c = c + Z.of_nat n
    /\ (n <= length l)%nat
    /\ Forall (fun x => readKey key x = v) (take n l)
    /\ (forall x, l !! n = Some x -> readKey key x <> v).
Proof.
  revert c. induction l as [|b l IH]; intros c; simpl.
  - exists 0%nat. split; [lia|]. split; [lia|]. split; [constructor | discriminate].
  - case_bool_decide as Hb.
    + destruct (IH (c + 1)) as (n & Hn & Hlen & Hall & Hstop).
      exists (S n). rewrite Hn.
      split; [lia|]. split; [lia|]. split; [now constructor | exact Hstop].
    + exists 0%nat. split; [lia|]. split; [lia|]. split; [constructor|].
      intros x [= <-]. exact Hb.
Qed.

(** C2: on a non-empty newest-first sequence the streak calculator returns
    the class of the first element with the number of leading elements of
    that class, up to the first element of another class; on
    [EVEN, EVEN, EVEN, ODD, EVEN] it returns [(EVEN, 3)]; the calculator
    of the rows is the same function. *)
Theorem calculateStreak_spec :
  (forall key b l,
     exists n : nat,
       calculateStreak key (b :: l)
       = Some (Streak.mk (readKey key b) (Z.of_nat n))
       /\ (1 <= n <= length (b :: l))%nat
       /\ Forall (fun x => readKey key x = readKey key b) (take n (b :: l))
       /\ (forall x, (b :: l) !! n = Some x -> readKey key x <> readKey key b))
  /\ calculateStreak KType
       [blk 5 EVEN BIG; blk 4 EVEN BIG; blk 3 EVEN SMALL; blk 2 ODD BIG;
        blk 1 EVEN BIG]
     = Some (Streak.mk (Parity EVEN) 3)
  /\ (forall key l, calcRowStreak key l = calculateStreak key l).
Proof.
  split; [|split; reflexivity].
  intros key b l. unfold calculateStreak.
  destruct (streakLoop_spec key (readKey key b) (b :: l) 0)
    as (n & Hn & Hlen & Hall & Hstop).
  exists n. rewrite Hn. split; [reflexivity|].
  split; [|split; assumption].
  split; [|exact Hlen].
  destruct n as [|n]; [|lia].
  exfalso. now apply (Hstop b).
Qed.

(** ** Row partitioner *)

Lemma rowItemsOf_In interval epoch rows filtered r b :
  In b (rowItemsOf interval epoch rows filtered r) <->
  In b filtered /\ inRow interval epoch rows r (Block.height b) = true.
Proof. unfold rowItemsOf. now rewrite filter_In. Qed.

(** From the rule's start on, the remainder of the code is the modulus. *)
Lemma inRow_spec interval epoch rows r h :
  1 <= interval -> epoch <= h -> 0 <= r < rows ->
  inRow interval epoch rows r h = true <->
  ((h - epoch) / interval) mod rows = r.
Proof.
  intros Hi Hh Hr. unfold inRow, logicalIdx.
  destruct (Z.eqb_spec interval 0) as [?|_]; [lia|].
  destruct (Z.eqb_spec rows 0) as [?|_]; [lia|].
  rewrite Z.eqb_eq, Z.rem_mod_nonneg; [reflexivity | | lia].
  apply Z.div_pos; lia.
Qed.

Lemma filter_sublist_of {A} (p : A -> bool) (l : list A) :
  sublist (List.filter p l) l.
Proof.
  induction l as [|x l IH]; simpl; [constructor|].
  destruct (p x); now constructor.
Qed.

Lemma filter_StronglySorted {A} (R : A -> A -> Prop) (p : A -> bool) l :
  StronglySorted R l -> StronglySorted R (List.filter p l).
Proof.
  induction 1 as [|x l Hs IH Hall]; simpl; [constructor|].
  destruct (p x); [|exact IH].
  constructor; [exact IH|].
  rewrite List.Forall_forall in Hall |- *.
  intros y Hy. apply filter_In in Hy as [Hy _]. now apply Hall.
Qed.

Lemma calcRowStreak_cons key b l :
  calcRowStreak key (b :: l)
  = Some (Streak.mk (readKey key b) (streakLoop key (readKey key b) (b :: l) 0)).
Proof. reflexivity. Qed.

Lemma calculateStreak_cons key b l :
  calculateStreak key (b :: l)
  = Some (Streak.mk (readKey key b) (streakLoop key (readKey key b) (b :: l) 0)).
Proof. reflexivity. Qed.

(** C3, as amended: for a rule with [interval >= 1], a filtered block at or
    above the start offset is in row [r] exactly when
    [floor ((height - startOffset) / interval) mod N = r]; every row is a
    sub-list of the filtered list in its order, so newest first; an empty
    row leaves the results as they are; the row's observations predict
    [newest height of the row + interval * N]; and for [N = 2],
    [interval = 1], [startOffset = 0] the heights [10, 9, 8, 7] go to rows
    [0, 1, 0, 1]. *)
Theorem row_partition_spec allBlocks followedPatterns activeFilter rule :
  let filtered := filteredOf allBlocks rule in
  let interval := intervalOf rule in
  let epoch := epochOf rule in
  let rows := rowsOf rule in
  (forall b r,
     1 <= interval -> epoch <= Block.height b -> 0 <= r < rows ->
     In b (rowItemsOf interval epoch rows filtered r) <->
     In b filtered /\ ((Block.height b - epoch) / interval) mod rows = r)
  /\ (forall r,
        sublist (rowItemsOf interval epoch rows filtered r) filtered
        /\ StronglySorted (descBy Block.height)
             (rowItemsOf interval epoch rows filtered r))
  /\ (forall threshold r res,
        rowItemsOf interval epoch rows filtered r = [] ->
        beadRowStep followedPatterns activeFilter rule threshold
          interval epoch rows filtered r res = Some res)
  /\ (forall threshold r res b0 rest,
        rowItemsOf interval epoch rows filtered r = b0 :: rest ->
        Forall (fun b => Block.height b <= Block.height b0) rest
        /\ exists rpStreak rsStreak,
             beadRowStep followedPatterns activeFilter rule threshold
               interval epoch rows filtered r res
             = Some (addBeadDragon followedPatterns activeFilter rule threshold
                       (Block.height b0 + interval * rows) r size rsStreak
                       (addBeadDragon followedPatterns activeFilter rule
                          threshold (Block.height b0 + interval * rows) r
                          parity rpStreak res)))
  /\ (let bs := [blk 10 ODD BIG; blk 9 ODD BIG; blk 8 ODD BIG; blk 7 ODD BIG] in
      let f := filteredOf bs (mkRule "r" 1 0 2) in
      map Block.height (rowItemsOf 1 0 2 f 0) = [10; 8]
      /\ map Block.height (rowItemsOf 1 0 2 f 1) = [9; 7]).
Proof.
  intros filtered interval epoch rows.
  split; [|split; [|split; [|split]]].
  - intros b r Hi Hb Hr. rewrite rowItemsOf_In, inRow_spec by assumption.
    reflexivity.
  - intros r. split; [apply filter_sublist_of|].
    apply filter_StronglySorted, sortDesc_sorted.
  - intros threshold r res Hrow. unfold beadRowStep. now rewrite Hrow.
  - intros threshold r res b0 rest Hrow. split.
    + assert (Hs : StronglySorted (descBy Block.height) (b0 :: rest)).
      { rewrite <- Hrow. apply filter_StronglySorted, sortDesc_sorted. }
      apply StronglySorted_inv in Hs as [_ Hs]. exact Hs.
    + unfold beadRowStep. rewrite Hrow, !calcRowStreak_cons. simpl.
      eexists _, _. reflexivity.
  - split; reflexivity.
Qed.

(** With [interval = 1] a block below the start offset passes the filter;
    its logical index [-5] has modulus [1] by [2], but the remainder the
    code takes is [-1], and the block is in no row: C3 as stated fails on
    this input. *)
Lemma row_partition_below_offset :
  In (blk 0 ODD BIG) (filteredOf [blk 0 ODD BIG] (mkRule "r" 1 5 2))
  /\ ((Block.height (blk 0 ODD BIG) - epochOf (mkRule "r" 1 5 2))
        / intervalOf (mkRule "r" 1 5 2)) mod rowsOf (mkRule "r" 1 5 2) = 1
  /\ ~ In (blk 0 ODD BIG)
         (rowItemsOf (intervalOf (mkRule "r" 1 5 2)) (epochOf (mkRule "r" 1 5 2))
            (rowsOf (mkRule "r" 1 5 2))
            (filteredOf [blk 0 ODD BIG] (mkRule "r" 1 5 2)) 1)
  /\ forall r, 0 <= r ->
       rowItemsOf (intervalOf (mkRule "r" 1 5 2)) (epochOf (mkRule "r" 1 5 2))
         (rowsOf (mkRule "r" 1 5 2))
         (filteredOf [blk 0 ODD BIG] (mkRule "r" 1 5 2)) r = [].
Proof.
  split; [left; reflexivity|]. split; [reflexivity|]. split.
  - intros H. vm_compute in H. exact H.
  - intros r Hr.
    change (filteredOf [blk 0 ODD BIG] (mkRule "r" 1 5 2)) with [blk 0 ODD BIG].
    change (intervalOf (mkRule "r" 1 5 2)) with 1.
    change (epochOf (mkRule "r" 1 5 2)) with 5.
    change (rowsOf (mkRule "r" 1 5 2)) with 2.
    unfold rowItemsOf, inRow, logicalIdx. simpl.
    destruct r; [reflexivity | reflexivity | lia].
Qed.

Lemma row_partition_spec_witness :
  In (blk 9 ODD BIG)
    (rowItemsOf 3 0 2 (filteredOf [blk 9 ODD BIG; blk 6 EVEN BIG] (mkRule "r" 3 0 2)) 1)
  <-> In (blk 9 ODD BIG) (filteredOf [blk 9 ODD BIG; blk 6 EVEN BIG] (mkRule "r" 3 0 2))
      /\ ((9 - 0) / 3) mod 2 = 1.
Proof.
  apply (proj1 (row_partition_spec [blk 9 ODD BIG; blk 6 EVEN BIG] [] ALL
                  (mkRule "r" 3 0 2)) (blk 9 ODD BIG) 1).
  - vm_compute; discriminate.
  - vm_compute; discriminate.
  - split; [vm_compute; discriminate | reflexivity].
Defined.

(** ** Pattern aggregator *)

Section AggregatorFacts.
Context (allBlocks : list BlockData) (followedPatterns : list FollowedPattern)
  (activeFilter : DragonFilter).
Local Abbreviation collect' := (collect followedPatterns activeFilter).

Lemma collect_nil res : collect' [] res = res.
Proof. destruct res. unfold collect. simpl. now rewrite !app_nil_r. Qed.

Lemma collect_app o1 o2 res :
  collect' (o1 ++ o2) res = collect' o2 (collect' o1 res).
Proof. unfold collect. simpl. now rewrite !List.filter_app, !app_assoc. Qed.

Lemma existsb_pointwise {A} (f g : A -> bool) l :
  (forall x, f x = g x) -> existsb f l = existsb g l.
Proof. intros H. induction l as [|x l IH]; simpl; [|rewrite H, IH]; reflexivity. Qed.

Lemma isFollowedTrend_isFollowed rule threshold next type streak :
  isFollowedTrend followedPatterns rule type
  = isFollowed followedPatterns (trendInfo rule threshold next type streak).
Proof.
  apply existsb_pointwise. intros fp. unfold followsDragon. simpl.
  now rewrite andb_true_r.
Qed.

Lemma isFollowedBead_isFollowed rule threshold next r type streak :
  isFollowedBead followedPatterns rule r type
  = isFollowed followedPatterns (beadInfo rule threshold next r type streak).
Proof. apply existsb_pointwise. intros fp. reflexivity. Qed.

Lemma pushIf_app {A} (c : bool) (x : A) l :
  pushIf c x l = l ++ (if c then [x] else []).
Proof. unfold pushIf. destruct c; [reflexivity | now rewrite app_nil_r]. Qed.

Lemma addTrendDragon_collect rule threshold next type streak res :
  addTrendDragon followedPatterns activeFilter rule threshold next type streak res
  = collect' [trendInfo rule threshold next type streak] res.
Proof.
  unfold addTrendDragon, collect, admitMain, admitWatch, hasMode.
  rewrite !pushIf_app, (isFollowedTrend_isFollowed rule threshold next type streak).
  simpl. now rewrite app_nil_r.
Qed.

Lemma addBeadDragon_collect rule threshold next r type streak res :
  addBeadDragon followedPatterns activeFilter rule threshold next r type streak res
  = collect' [beadInfo rule threshold next r type streak] res.
Proof.
  unfold addBeadDragon, collect, admitMain, admitWatch, hasMode.
  rewrite !pushIf_app, (isFollowedBead_isFollowed rule threshold next r type streak).
  simpl. now rewrite app_nil_r.
Qed.

Lemma beadRowStep_collect rule filtered r res :
  beadRowStep followedPatterns activeFilter rule (thresholdOf rule)
    (intervalOf rule) (epochOf rule) (rowsOf rule) filtered r res
  = Some (collect' (rowObservations rule filtered r) res).
Proof.
  unfold beadRowStep, rowObservations.
  destruct (rowItemsOf _ _ _ filtered r) as [|b0 rest] eqn:Hrow.
  - now rewrite collect_nil.
  - rewrite !calcRowStreak_cons. simpl.
    rewrite !addBeadDragon_collect, <- collect_app. reflexivity.
Qed.

Lemma forEachM_collect {A} (body : A -> Results -> option Results)
  (obsOf : A -> list DragonInfo) l res :
  (forall x res, body x res = Some (collect' (obsOf x) res)) ->
  forEachM body l res = Some (collect' (flat_map obsOf l) res).
Proof.
  intros Hbody. revert res.
  induction l as [|x l IH]; intros res; simpl.
  - now rewrite collect_nil.
  - rewrite Hbody. simpl. rewrite IH, collect_app. reflexivity.
Qed.

Lemma processRule_collect rule res :
  processRule allBlocks followedPatterns activeFilter rule res
  = Some (collect' (ruleObservations allBlocks rule) res).
Proof.
  unfold processRule, ruleObservations.
  destruct (filteredOf allBlocks rule) as [|b0 rest] eqn:Hf.
  - now rewrite collect_nil.
  - rewrite !calculateStreak_cons. simpl.
    rewrite (forEachM_collect _ (rowObservations rule (b0 :: rest)))
      by (intros; apply beadRowStep_collect).
    rewrite !addTrendDragon_collect, <- !collect_app. reflexivity.
Qed.

End AggregatorFacts.

Lemma ruleObservations_nil rule : ruleObservations [] rule = [].
Proof. reflexivity. Qed.

Lemma allObservations_nil rules : allObservations [] rules = [].
Proof.
  unfold allObservations.
  induction rules as [|rule rules IH]; cbn [flat_map]; [reflexivity|].
  now rewrite IH, ruleObservations_nil.
Qed.

(** The aggregation never throws, and its three lists are the gated
    observations in descending order of length. *)
Lemma computeDragons_spec allBlocks followedPatterns activeFilter rules :
  computeDragons allBlocks followedPatterns activeFilter rules
  = Some
      {| trendDragons :=
           sortDesc Dragon.count
             (List.filter
                (fun d => hasMode trend d && admitMain activeFilter d)
                (allObservations allBlocks rules));
         beadRowDragons :=
           sortDesc Dragon.count
             (List.filter
                (fun d => hasMode bead d && admitMain activeFilter d)
                (allObservations allBlocks rules));
         followedResults :=
           sortDesc Dragon.count
             (List.filter (admitWatch followedPatterns activeFilter)
                (allObservations allBlocks rules)) |}.
Proof.
  unfold computeDragons. destruct allBlocks as [|b bs] eqn:Hb.
  - now rewrite allObservations_nil.
  - rewrite <- Hb.
    rewrite (forEachM_collect followedPatterns activeFilter _
               (ruleObservations allBlocks))
      by (intros; apply processRule_collect).
    reflexivity.
Qed.

Lemma matchesFilter_spec activeFilter c :
  matchesFilter activeFilter c = true <->
  activeFilter = ALL \/ activeFilter = Only c.
Proof.
  destruct activeFilter as [|c']; simpl.
  - intuition.
  - rewrite bool_decide_eq_true. split.
    + intros ->. now right.
    + intros [H|H]; [discriminate | now injection H].
Qed.

Lemma admitMain_spec activeFilter d :
  admitMain activeFilter d = true <->
  Dragon.threshold d <= Dragon.count d
  /\ (activeFilter = ALL \/ activeFilter = Only (Dragon.rawType d)).
Proof.
  unfold admitMain. now rewrite andb_true_iff, Z.leb_le, matchesFilter_spec.
Qed.

Lemma isFollowed_spec followedPatterns d :
  isFollowed followedPatterns d = true <->
  exists fp,
    In fp followedPatterns
    /\ Followed.ruleId fp = Dragon.ruleId d
    /\ Followed.type fp = Dragon.type d
    /\ Followed.mode fp = Dragon.mode d
    /\ (Dragon.mode d = bead -> Followed.rowId fp = Dragon.rowId d).
Proof.
  unfold isFollowed. rewrite existsb_exists.
  split; intros (fp & Hin & H); exists fp; (split; [exact Hin|]);
    unfold followsDragon in *.
  - rewrite !andb_true_iff, !bool_decide_eq_true in H.
    destruct H as [[[H1 H2] H3] H4]. repeat split; try assumption.
    intros Hm. rewrite Hm in H4. now apply bool_decide_eq_true in H4.
  - destruct H as (H1 & H2 & H3 & H4).
    rewrite !andb_true_iff, !bool_decide_eq_true. repeat split; try assumption.
    destruct (Dragon.mode d); [reflexivity|].
    apply bool_decide_eq_true. now apply H4.
Qed.

Lemma admitWatch_spec followedPatterns activeFilter d :
  admitWatch followedPatterns activeFilter d = true <->
  isFollowed followedPatterns d = true
  /\ (activeFilter = ALL \/ activeFilter = Only (Dragon.rawType d)).
Proof. unfold admitWatch. now rewrite andb_true_iff, matchesFilter_spec. Qed.

Lemma ruleObservations_in_all allBlocks rules rule d :
  In rule rules -> In d (ruleObservations allBlocks rule) ->
  In d (allObservations allBlocks rules).
Proof.
  intros Hr Hd. unfold allObservations. apply in_flat_map. eauto.
Qed.

(** Every [info] built for a rule carries the rule's identifier and
    threshold. *)
Lemma rowObservations_fields rule filtered r d :
  In d (rowObservations rule filtered r) ->
  Dragon.ruleId d = Rule.id rule
  /\ Dragon.threshold d = thresholdOf rule
  /\ Dragon.mode d = bead
  /\ Dragon.rowId d = Some (r + 1)
  /\ exists b0 rest,
       rowItemsOf (intervalOf rule) (epochOf rule) (rowsOf rule) filtered r
       = b0 :: rest
       /\ Dragon.nextHeight d = Block.height b0 + intervalOf rule * rowsOf rule.
Proof.
  unfold rowObservations.
  destruct (rowItemsOf _ _ _ filtered r) as [|b0 rest]; [intros []|].
  intros [<-|[<-|[]]]; simpl; repeat split; eauto.
Qed.

Lemma ruleObservations_fields allBlocks rule d :
  In d (ruleObservations allBlocks rule) ->
  Dragon.ruleId d = Rule.id rule
  /\ Dragon.threshold d = thresholdOf rule
  /\ match Dragon.mode d with
     | trend => Dragon.rowId d = None
     | bead =>
         exists r, 0 <= r < rowsOf rule /\ Dragon.rowId d = Some (r + 1)
     end.
Proof.
  unfold ruleObservations.
  destruct (filteredOf allBlocks rule) as [|b0 rest]; [intros []|].
  rewrite in_app_iff, in_flat_map.
  intros [[<-|[<-|[]]]|(r & Hr & Hd)]; simpl; try (repeat split; reflexivity).
  apply list_elem_of_In, elem_of_seqZ in Hr.
  apply rowObservations_fields in Hd as (H1 & H2 & H3 & H4 & _).
  rewrite H3. repeat split; try assumption.
  exists r. split; [lia | exact H4].
Qed.

(** C4: an observation enters the sequence-mode or row-mode result list
    exactly when its length reaches the rule's threshold and it passes the
    class filter, and enters the watched list exactly when a watched
    pattern names its signature and it passes the class filter, the
    threshold playing no part there. *)
Theorem admission_spec allBlocks followedPatterns activeFilter rules :
  exists out,
    computeDragons allBlocks followedPatterns activeFilter rules = Some out
    /\ (forall rule d,
          In rule rules -> In d (ruleObservations allBlocks rule) ->
          let main :=
            match Dragon.mode d with
            | trend => trendDragons out
            | bead => beadRowDragons out
            end in
          let passes :=
            activeFilter = ALL \/ activeFilter = Only (Dragon.rawType d) in
          let watched :=
            exists fp,
              In fp followedPatterns
              /\ Followed.ruleId fp = Dragon.ruleId d
              /\ Followed.type fp = Dragon.type d
              /\ Followed.mode fp = Dragon.mode d
              /\ (Dragon.mode d = bead ->
                  Followed.rowId fp = Dragon.rowId d) in
          (In d main <-> thresholdOf rule <= Dragon.count d /\ passes)
          /\ (In d (followedResults out) <-> watched /\ passes))
    /\ (forall d,
          In d (trendDragons out) \/ In d (beadRowDragons out)
          \/ In d (followedResults out) ->
          exists rule, In rule rules /\ In d (ruleObservations allBlocks rule)).
Proof.
  rewrite computeDragons_spec. eexists. split; [reflexivity|]. simpl. split.
  - intros rule d Hrule Hd.
    pose proof (ruleObservations_in_all _ _ _ _ Hrule Hd) as Hall.
    destruct (ruleObservations_fields _ _ _ Hd) as (_ & Hthr & _).
    split.
    + rewrite <- Hthr, <- admitMain_spec.
      destruct (Dragon.mode d) eqn:Hm;
        rewrite sortDesc_In, filter_In; unfold hasMode; rewrite Hm;
        rewrite bool_decide_eq_true_2 by reflexivity; simpl; tauto.
    + rewrite sortDesc_In, filter_In, admitWatch_spec, isFollowed_spec. tauto.
  - intros d. rewrite !sortDesc_In, !filter_In. unfold allObservations.
    rewrite in_flat_map. tauto.
Qed.

Lemma admission_spec_witness :
  exists out,
    computeDragons [blk 3 ODD BIG; blk 2 ODD BIG; blk 1 ODD SMALL] []
      (Only (Parity ODD)) [mkRule "r" 1 0 1] = Some out
    /\ exists d,
         In d (trendDragons out) /\ Dragon.count d = 3
         /\ Dragon.rawType d = Parity ODD.
Proof.
  destruct (admission_spec [blk 3 ODD BIG; blk 2 ODD BIG; blk 1 ODD SMALL] []
              (Only (Parity ODD)) [mkRule "r" 1 0 1]) as (out & Hout & Hadm & _).
  exists out. split; [exact Hout|].
  set (rule := mkRule "r" 1 0 1).
  set (d := trendInfo rule 3 4 parity (Streak.mk (Parity ODD) 3)).
  exists d.
  assert (Hr : In rule [rule]) by (left; reflexivity).
  assert (Hd : In d (ruleObservations
                       [blk 3 ODD BIG; blk 2 ODD BIG; blk 1 ODD SMALL] rule))
    by (left; reflexivity).
  destruct (Hadm rule d Hr Hd) as [Hmain _].
  split; [|split; reflexivity].
  apply Hmain. split; [vm_compute; discriminate | right; reflexivity].
Defined.

(** The decimal print of a number is never empty. *)
Lemma pretty_N_go_length (x : N) (s : string) :
  (String.length s <= String.length (pretty_N_go x s))%nat.
Proof.
  revert s. induction (N.lt_wf_0 x) as [x _ IH]; intros s.
  destruct (decide (x = 0%N)) as [->|Hx].
  - rewrite pretty_N_go_0. lia.
  - rewrite pretty_N_go_step by lia.
    etransitivity; [|apply IH, N.div_lt; lia]. simpl. lia.
Qed.

Lemma pretty_Z_nonempty (k : Z) : pretty k <> "".
Proof.
  destruct k as [|p|p]; [discriminate| |discriminate].
  unfold pretty, pretty_Z, pretty, pretty_positive, pretty, pretty_N.
  destruct (decide (N.pos p = 0%N)) as [?|_]; [discriminate|].
  rewrite pretty_N_go_step by lia. intros H.
  pose proof (pretty_N_go_length (N.pos p `div` 10)
                (String (pretty_N_char (N.pos p `mod` 10)) "")) as Hlen.
  rewrite H in Hlen. simpl in Hlen. lia.
Qed.

(** ** Keys and signatures *)

Lemma append_nil_l (a : string) : "" +:+ a = a.
Proof. reflexivity. Qed.

Lemma append_cons x (a b : string) : String x a +:+ b = String x (a +:+ b).
Proof. reflexivity. Qed.

Lemma append_assoc (a b c : string) : (a +:+ b) +:+ c = a +:+ b +:+ c.
Proof.
  induction a as [|x a IH]; [reflexivity|].
  now rewrite !append_cons, IH.
Qed.

Lemma noBar_app a b : noBar (a +:+ b) = noBar a && noBar b.
Proof.
  induction a as [|x a IH]; [reflexivity|].
  rewrite append_cons. simpl. now rewrite IH, andb_assoc.
Qed.

Lemma noBar_bar a b : noBar (a +:+ String "|" b) = false.
Proof. rewrite noBar_app. simpl. apply andb_false_r. Qed.

(** The last ['|'] of a string splits it in one way only. *)
Lemma split_last_bar x y u v :
  noBar u = true -> noBar v = true ->
  x +:+ String "|" u = y +:+ String "|" v -> x = y /\ u = v.
Proof.
  intros Hu Hv. revert y.
  induction x as [|c x IH]; intros [|c' y] H;
    rewrite ?append_nil_l, ?append_cons in H.
  - injection H as H. now split.
  - injection H as _ H. rewrite H, noBar_bar in Hu. discriminate.
  - injection H as _ H. rewrite <- H, noBar_bar in Hv. discriminate.
  - injection H as -> H. destruct (IH y H) as [-> ->]. now split.
Qed.

Lemma regroup_bar a t z :
  a +:+ String "|" (t +:+ z) = (a +:+ String "|" t) +:+ z.
Proof. now rewrite append_assoc. Qed.

Lemma noBar_pretty_N_go (x : N) (s : string) :
  noBar (pretty_N_go x s) = noBar s.
Proof.
  revert s. induction (N.lt_wf_0 x) as [x _ IH]; intros s.
  destruct (decide (x = 0%N)) as [->|Hx].
  - now rewrite pretty_N_go_0.
  - rewrite pretty_N_go_step by lia. rewrite IH by (apply N.div_lt; lia).
    simpl. unfold pretty_N_char. now repeat case_match.
Qed.

Lemma noBar_pretty_Z (k : Z) : noBar (pretty k) = true.
Proof.
  assert (Hpos : forall p : positive, noBar (pretty p) = true).
  { intros p. unfold pretty, pretty_positive, pretty, pretty_N.
    case_decide; [reflexivity | apply noBar_pretty_N_go]. }
  destruct k as [|p|p]; [reflexivity | apply Hpos |].
  unfold pretty, pretty_Z. rewrite noBar_app, Hpos. reflexivity.
Qed.

Lemma noBar_rowIdStr rowId : noBar (rowIdStr rowId) = true.
Proof.
  destruct rowId as [k|]; [|reflexivity]. unfold rowIdStr.
  destruct (k =? 0); [reflexivity | apply noBar_pretty_Z].
Qed.

Lemma noBar_typeStr t : noBar (typeStr t) = true.
Proof. now destruct t. Qed.

Lemma noBar_modeStr m : noBar (modeStr m) = true.
Proof. now destruct m. Qed.

Lemma noBar_rawStr c : noBar (rawStr c) = true.
Proof. now destruct c as [[]|[]]. Qed.

Lemma typeStr_inj t t' : typeStr t = typeStr t' -> t = t'.
Proof. now destruct t, t'. Qed.

Lemma modeStr_inj m m' : modeStr m = modeStr m' -> m = m'.
Proof. now destruct m, m'. Qed.

Lemma rawStr_inj c c' : rawStr c = rawStr c' -> c = c'.
Proof. now destruct c as [[]|[]], c' as [[]|[]]. Qed.

(** The key string determines the signature: the rule, the dimension, the
    mode, the printed row and the class. *)
Lemma keyStr_inj a t m r c a' t' m' r' c' :
  keyStr a t m r c = keyStr a' t' m' r' c' <->
  a = a' /\ t = t' /\ m = m' /\ rowIdStr r = rowIdStr r' /\ c = c'.
Proof.
  split; [|now intros (-> & -> & -> & H & ->); unfold keyStr; rewrite H].
  unfold keyStr. intros H.
  change (a +:+ String "|" (typeStr t +:+ String "|" (modeStr m +:+
            String "|" (rowIdStr r +:+ String "|" (rawStr c))))
          = a' +:+ String "|" (typeStr t' +:+ String "|" (modeStr m' +:+
              String "|" (rowIdStr r' +:+ String "|" (rawStr c'))))) in H.
  rewrite !regroup_bar in H.
  apply split_last_bar in H as [H Hc]; [|apply noBar_rawStr..].
  apply split_last_bar in H as [H Hr]; [|apply noBar_rowIdStr..].
  apply split_last_bar in H as [H Hm]; [|apply noBar_modeStr..].
  apply split_last_bar in H as [H Ht]; [|apply noBar_typeStr..].
  apply typeStr_inj in Ht. apply modeStr_inj in Hm. apply rawStr_inj in Hc.
  tauto.
Qed.

(** Two row fields print alike when they are the same number, or are both
    absent or zero. *)
Lemma rowIdStr_eq_iff r r' :
  rowIdStr r = rowIdStr r' <-> jsOr r 0 = jsOr r' 0.
Proof.
  assert (Hne : forall k : Z, pretty k <> "") by apply pretty_Z_nonempty.
  unfold rowIdStr, jsOr.
  destruct r as [k|], r' as [k'|];
    repeat match goal with |- context [?x =? 0] => destruct (Z.eqb_spec x 0) end;
    split; intros H; try reflexivity; try congruence;
    try (exfalso; eapply Hne; eauto; fail);
    try (now apply (inj pretty) in H).
Qed.

(** ** Change-detecting tracker *)

Lemma filter_filter_and {A} (p q : A -> bool) l :
  List.filter p (List.filter q l) = List.filter (fun x => q x && p x) l.
Proof.
  induction l as [|x l IH]; simpl; [reflexivity|].
  destruct (q x); simpl; [destruct (p x)|]; now rewrite IH.
Qed.

Lemma admitMain_Only c d :
  admitMain (Only c) d
  = admitMain ALL d && bool_decide (Dragon.rawType d = c).
Proof. unfold admitMain. simpl. now rewrite andb_true_r. Qed.

(** C5, as amended: the tracker reads the concatenation of the
    sequence-mode and row-mode result lists, and these are gated by the
    display filter.  Under show-all the list holds every observation that
    reaches its threshold; under a class filter [c] it is the sub-list of
    those of class [c], and the evaluation tracks that sub-list. *)
Theorem tracking_follows_filter allBlocks followedPatterns rules c :
  exists outAll outC,
    computeDragons allBlocks followedPatterns ALL rules = Some outAll
    /\ computeDragons allBlocks followedPatterns (Only c) rules = Some outC
    /\ (forall d,
          In d (allDragonsOf outAll) <->
          In d (allObservations allBlocks rules)
          /\ Dragon.threshold d <= Dragon.count d)
    /\ allDragonsOf outC
       = List.filter (fun d => bool_decide (Dragon.rawType d = c))
           (allDragonsOf outAll)
    /\ forall env st,
         evaluate env allBlocks rules followedPatterns (Only c) st
         = trackingEffect env
             (List.filter (fun d => bool_decide (Dragon.rawType d = c))
                (trendDragons outAll))
             (List.filter (fun d => bool_decide (Dragon.rawType d = c))
                (beadRowDragons outAll))
             st.
Proof.
  unfold evaluate. rewrite !computeDragons_spec.
  eexists _, _. split; [reflexivity|]. split; [reflexivity|].
  unfold allDragonsOf. simpl.
  assert (Hgate : forall m,
            sortDesc Dragon.count
              (List.filter (fun d => hasMode m d && admitMain (Only c) d)
                 (allObservations allBlocks rules))
            = List.filter (fun d => bool_decide (Dragon.rawType d = c))
                (sortDesc Dragon.count
                   (List.filter (fun d => hasMode m d && admitMain ALL d)
                      (allObservations allBlocks rules)))).
  { intros m. rewrite sortDesc_filter, filter_filter_and. f_equal.
    apply List.filter_ext. intros d.
    now rewrite admitMain_Only, andb_assoc. }
  split; [|split].
  - intros d. rewrite in_app_iff, !sortDesc_In, !filter_In.
    unfold hasMode. rewrite !andb_true_iff, !bool_decide_eq_true.
    rewrite !admitMain_spec. destruct (Dragon.mode d); intuition congruence.
  - now rewrite List.filter_app, !Hgate.
  - intros env st. now rewrite !Hgate.
Qed.

(** Three odd blocks under one rule: show-all tracks the odd streak, the
    EVEN filter tracks nothing, and the records that are written differ.
    C5 as stated fails on this input. *)
Lemma tracking_depends_on_filter :
  (allDragonsOf <$>
     computeDragons [blk 3 ODD BIG; blk 2 ODD BIG; blk 1 ODD SMALL] [] ALL
       [mkRule "r" 1 0 1])
  <> (allDragonsOf <$>
        computeDragons [blk 3 ODD BIG; blk 2 ODD BIG; blk 1 ODD SMALL] []
          (Only (Parity EVEN)) [mkRule "r" 1 0 1])
  /\ dragonRecords
       (evaluate (mkEnv (fun _ => 1000) (fun _ => "k3x9ab") (fun _ => 1000))
          [blk 3 ODD BIG; blk 2 ODD BIG; blk 1 ODD SMALL] [mkRule "r" 1 0 1] []
          ALL (handleStartTracking (loadEffect None initialTracker)))
     <> dragonRecords
          (evaluate (mkEnv (fun _ => 1000) (fun _ => "k3x9ab") (fun _ => 1000))
             [blk 3 ODD BIG; blk 2 ODD BIG; blk 1 ODD SMALL] [mkRule "r" 1 0 1] []
             (Only (Parity EVEN))
             (handleStartTracking (loadEffect None initialTracker))).
Proof. split; vm_compute; discriminate. Qed.

Lemma string_eqb_refl (s : string) : String.eqb s s = true.
Proof. now apply String.eqb_eq. Qed.

(** C6: a second run of the tracker on the same observation lists changes
    nothing: the fingerprint is the stored one, so the records, the stored
    fingerprint and the save calls stay as the first run left them; the
    same holds for a second evaluation of the same blocks, rules, watched
    patterns and filter. *)
Theorem tracking_idempotent env env' tds bds st :
  let st1 := trackingEffect env tds bds st in
  let st2 := trackingEffect env' tds bds st1 in
  st2 = st1
  /\ dragonRecords st2 = dragonRecords st1
  /\ saveCalls st2 = saveCalls st1
  /\ (isTracking st = true -> isInitializedRef st = true ->
      prevDragonsRef st1 = fingerprint (tds ++ bds))
  /\ (forall allBlocks rules followedPatterns activeFilter,
        evaluate env' allBlocks rules followedPatterns activeFilter
          (evaluate env allBlocks rules followedPatterns activeFilter st)
        = evaluate env allBlocks rules followedPatterns activeFilter st).
Proof.
  intros st1 st2.
  assert (Hidem : forall e e' t b s,
            trackingEffect e' t b (trackingEffect e t b s)
            = trackingEffect e t b s).
  { intros e e' t b s. unfold trackingEffect.
    destruct (negb (isTracking s) || negb (isInitializedRef s)) eqn:Hg.
    - now rewrite Hg.
    - destruct (String.eqb (fingerprint (t ++ b)) (prevDragonsRef s)) eqn:Hfp.
      + now rewrite Hg, Hfp.
      + cbn [isTracking isInitializedRef prevDragonsRef].
        now rewrite Hg, string_eqb_refl. }
  assert (H : st2 = st1) by apply Hidem.
  rewrite H. split; [reflexivity|]. split; [reflexivity|].
  split; [reflexivity|]. split.
  - intros Ht Hi. subst st1. unfold trackingEffect. rewrite Ht, Hi. simpl.
    destruct (String.eqb _ _) eqn:Hfp; [|reflexivity].
    now apply String.eqb_eq in Hfp.
  - intros allBlocks rules followedPatterns activeFilter.
    unfold evaluate. rewrite computeDragons_spec. apply Hidem.
Qed.

Lemma tracking_idempotent_witness :
  prevDragonsRef
    (trackingEffect (mkEnv (fun _ => 7) (fun _ => "q") (fun _ => 7))
       [trendInfo (mkRule "r" 1 0 1) 3 4 parity (Streak.mk (Parity ODD) 3)] []
       (handleStartTracking (loadEffect None initialTracker)))
  = "r|parity|trend||ODD|3".
Proof.
  exact (proj1 (proj2 (proj2 (proj2
    (tracking_idempotent (mkEnv (fun _ => 7) (fun _ => "q") (fun _ => 7))
       (mkEnv (fun _ => 7) (fun _ => "q") (fun _ => 7))
       [trendInfo (mkRule "r" 1 0 1) 3 4 parity (Streak.mk (Parity ODD) 3)] []
       (handleStartTracking (loadEffect None initialTracker))))))
    eq_refl eq_refl).
Defined.

Lemma advances_refl r : advances r r.
Proof. unfold advances. split; [|split; [|split]]; [reflexivity | reflexivity | lia | reflexivity]. Qed.

Lemma advances_trans r1 r2 r3 : advances r1 r2 -> advances r2 r3 -> advances r1 r3.
Proof.
  intros (Hid1 & Hk1 & Hl1 & He1) (Hid2 & Hk2 & Hl2 & He2).
  unfold advances. split; [|split; [|split]]; [congruence | congruence | lia |].
  intros Heq. rewrite He2 by lia. apply He1. lia.
Qed.

Lemma advances_bump env k d r :
  StatRecord.streakLength r < Dragon.count d -> advances r (bumpRecord env k d r).
Proof.
  intros Hlt. unfold advances, recordKey. simpl.
  split; [|split; [|split]]; [reflexivity | reflexivity | lia | lia].
Qed.

(** One iteration of the loop, seen from a record that is in the list. *)
Lemma applyDragon_lookup env k d updated (i : nat) r :
  updated !! i = Some r ->
  applyDragon env k d updated !! i = Some r
  \/ (recordKey r = dragonKey d
      /\ StatRecord.streakLength r < Dragon.count d
      /\ applyDragon env k d updated !! i = Some (bumpRecord env k d r)).
Proof.
  intros Hi. unfold applyDragon.
  destruct (list_find _ updated) as [[idx existing]|] eqn:Hfind.
  - apply list_find_Some in Hfind as (Hidx & Hkey & _).
    destruct (Z.ltb_spec (StatRecord.streakLength existing) (Dragon.count d))
      as [Hlt|_]; [|now left].
    destruct (decide (idx = i)) as [->|Hne].
    + right. assert (existing = r) as -> by congruence.
      repeat split; [exact Hkey | exact Hlt |].
      apply list_lookup_insert_eq. now apply lookup_lt_Some in Hi.
    + left. now rewrite list_lookup_insert_ne.
  - left. now apply lookup_app_l_Some.
Qed.

Lemma applyDragon_existing env k d updated :
  (exists r, In r updated /\ recordKey r = dragonKey d) ->
  length (applyDragon env k d updated) = length updated.
Proof.
  intros (r & Hin & Hkey). unfold applyDragon.
  destruct (list_find _ updated) as [[idx existing]|] eqn:Hfind.
  - destruct (_ <? _); [apply length_insert | reflexivity].
  - apply list_find_None in Hfind. rewrite List.Forall_forall in Hfind.
    now destruct (Hfind r Hin).
Qed.

Lemma applyDragon_fresh env k d updated :
  (forall r, In r updated -> recordKey r <> dragonKey d) ->
  applyDragon env k d updated = updated ++ [newRecord env k d].
Proof.
  intros Hnone. unfold applyDragon.
  destruct (list_find _ updated) as [[idx existing]|] eqn:Hfind; [|reflexivity].
  apply list_find_Some in Hfind as (Hidx & Hkey & _).
  destruct (Hnone existing); [|exact Hkey].
  apply list_elem_of_In. eapply list_elem_of_lookup_2, Hidx.
Qed.

Lemma applyDragon_advances env k d updated (i : nat) r :
  updated !! i = Some r ->
  exists r', applyDragon env k d updated !! i = Some r' /\ advances r r'.
Proof.
  intros Hi.
  destruct (applyDragon_lookup env k d updated i r Hi) as [H|(_ & Hlt & H)].
  - exists r. split; [exact H | apply advances_refl].
  - eexists. split; [exact H | now apply advances_bump].
Qed.

Lemma updateLoop_advances env k ds updated (i : nat) r :
  updated !! i = Some r ->
  exists r', updateLoop env k ds updated !! i = Some r' /\ advances r r'.
Proof.
  revert k updated r. induction ds as [|d ds IH]; intros k updated r Hi; simpl.
  - exists r. split; [exact Hi | apply advances_refl].
  - destruct (applyDragon_advances env k d updated i r Hi) as (r1 & H1 & Ha1).
    destruct (IH (S k) _ r1 H1) as (r2 & H2 & Ha2).
    exists r2. split; [exact H2 | eapply advances_trans; eassumption].
Qed.

Lemma stepTracker_advances st ev (i : nat) r :
  dragonRecords st !! i = Some r ->
  exists r', dragonRecords (stepTracker st ev) !! i = Some r' /\ advances r r'.
Proof.
  intros Hi. destruct ev as [env tds bds| |]; simpl;
    try (exists r; split; [exact Hi | apply advances_refl]).
  unfold trackingEffect.
  destruct (_ || _); [exists r; split; [exact Hi | apply advances_refl]|].
  destruct (String.eqb _ _); [exists r; split; [exact Hi | apply advances_refl]|].
  simpl. now apply updateLoop_advances.
Qed.

(** C7: over any sequence of tracker updates a record keeps its place and
    signature and its [streakLength] never decreases, the record being
    left as it is unless the length grew; one loop iteration replaces the
    length of an existing record only by a strictly larger observed one,
    stamping it with the current time, and appends a record, with the
    observed length, only when no record has the signature; and the key
    compared is the signature: rule, dimension, mode, row and class. *)
Theorem max_streak_monotone :
  (forall evs st (i : nat) r,
     dragonRecords st !! i = Some r ->
     exists r',
       dragonRecords (runTracker evs st) !! i = Some r'
       /\ recordKey r' = recordKey r
       /\ StatRecord.streakLength r <= StatRecord.streakLength r'
       /\ (StatRecord.streakLength r' = StatRecord.streakLength r -> r' = r))
  /\ (forall env k d updated,
        (forall (i : nat) r,
           updated !! i = Some r ->
           applyDragon env k d updated !! i = Some r
           \/ (recordKey r = dragonKey d
               /\ StatRecord.streakLength r < Dragon.count d
               /\ applyDragon env k d updated !! i
                  = Some (bumpRecord env k d r)
               /\ StatRecord.streakLength (bumpRecord env k d r)
                  = Dragon.count d
               /\ StatRecord.timestamp (bumpRecord env k d r) = nowAt env k))
        /\ ((exists r, In r updated /\ recordKey r = dragonKey d) ->
            length (applyDragon env k d updated) = length updated)
        /\ ((forall r, In r updated -> recordKey r <> dragonKey d) ->
            applyDragon env k d updated = updated ++ [newRecord env k d]
            /\ recordKey (newRecord env k d) = dragonKey d
            /\ StatRecord.streakLength (newRecord env k d) = Dragon.count d))
  /\ (forall r d,
        recordKey r = dragonKey d <->
        StatRecord.ruleId r = Dragon.ruleId d
        /\ StatRecord.type r = Dragon.type d
        /\ StatRecord.mode r = Dragon.mode d
        /\ jsOr (StatRecord.rowId r) 0 = jsOr (Dragon.rowId d) 0
        /\ StatRecord.rawType r = Dragon.rawType d).
Proof.
  split; [|split].
  3: { intros r d. unfold recordKey, dragonKey.
       now rewrite keyStr_inj, rowIdStr_eq_iff. }
  - intros evs st i r Hi.
    cut (exists r', dragonRecords (runTracker evs st) !! i = Some r'
                    /\ advances r r').
    { intros (r' & H & (_ & Hk & Hl & He)). exists r'. tauto. }
    revert st r Hi. unfold runTracker.
    induction evs as [|ev evs IH]; intros st r Hi; simpl.
    + exists r. split; [exact Hi | apply advances_refl].
    + destruct (stepTracker_advances st ev i r Hi) as (r1 & H1 & Ha1).
      destruct (IH _ r1 H1) as (r2 & H2 & Ha2).
      exists r2. split; [exact H2 | eapply advances_trans; eassumption].
  - intros env k d updated. split; [|split].
    + intros i r Hi.
      destruct (applyDragon_lookup env k d updated i r Hi) as [H|(Hk & Hlt & H)];
        [now left | right]. repeat split; assumption.
    + apply applyDragon_existing.
    + intros Hnone. split; [now apply applyDragon_fresh|]. split; reflexivity.
Qed.

Lemma max_streak_monotone_witness :
  exists r',
    dragonRecords
      (runTracker
         [EvTrack (mkEnv (fun _ => 2000) (fun _ => "zz") (fun _ => 2000))
            [trendInfo (mkRule "r" 1 0 1) 3 9 parity (Streak.mk (Parity ODD) 5)] []]
         (trackingEffect (mkEnv (fun _ => 1000) (fun _ => "aa") (fun _ => 1000))
            [trendInfo (mkRule "r" 1 0 1) 3 8 parity (Streak.mk (Parity ODD) 4)] []
            (handleStartTracking (loadEffect None initialTracker))))
      !! 0%nat = Some r'
    /\ 4 <= StatRecord.streakLength r'.
Proof.
  destruct (proj1 max_streak_monotone
    [EvTrack (mkEnv (fun _ => 2000) (fun _ => "zz") (fun _ => 2000))
       [trendInfo (mkRule "r" 1 0 1) 3 9 parity (Streak.mk (Parity ODD) 5)] []]
    (trackingEffect (mkEnv (fun _ => 1000) (fun _ => "aa") (fun _ => 1000))
       [trendInfo (mkRule "r" 1 0 1) 3 8 parity (Streak.mk (Parity ODD) 4)] []
       (handleStartTracking (loadEffect None initialTracker)))
    0%nat
    (newRecord (mkEnv (fun _ => 1000) (fun _ => "aa") (fun _ => 1000)) 0
       (trendInfo (mkRule "r" 1 0 1) 3 8 parity (Streak.mk (Parity ODD) 4)))
    eq_refl) as (r' & H & _ & Hl & _).
  exists r'. split; [exact H | exact Hl].
Defined.

(** *** The fingerprint of a non-empty list is not the initial one *)

Lemma insertString_In y x l : In y (insertString x l) <-> y = x \/ In y l.
Proof.
  induction l as [|z l IH]; simpl; [intuition|].
  destruct (String.leb x z); simpl; [intuition|].
  rewrite IH. intuition.
Qed.

Lemma sortStrings_In y l : In y (sortStrings l) <-> In y l.
Proof.
  unfold sortStrings. induction l as [|x l IH]; simpl; [reflexivity|].
  rewrite insertString_In, IH. intuition.
Qed.

Lemma sortStrings_nil_inv l : sortStrings l = [] -> l = [].
Proof.
  destruct l as [|x l]; [reflexivity|]. intros H.
  assert (Hin : In x (sortStrings (x :: l))) by (apply sortStrings_In; now left).
  rewrite H in Hin. destruct Hin.
Qed.

Lemma dragonSignature_nonempty d : dragonSignature d <> "".
Proof.
  unfold dragonSignature, dragonKey, keyStr.
  destruct (Dragon.ruleId d); simpl; discriminate.
Qed.

Lemma concat_nonempty sep x l : x <> "" -> String.concat sep (x :: l) <> "".
Proof.
  intros Hx. simpl. destruct l; [exact Hx|].
  destruct x; [now destruct Hx | discriminate].
Qed.

Lemma fingerprint_empty_inv allDragons :
  fingerprint allDragons = "" -> allDragons = [].
Proof.
  unfold fingerprint. intros H.
  destruct (sortStrings (map dragonSignature allDragons)) as [|x l] eqn:Hs.
  - apply sortStrings_nil_inv in Hs. now destruct allDragons.
  - exfalso. revert H. apply concat_nonempty.
    assert (Hin : In x (map dragonSignature allDragons)).
    { apply sortStrings_In. rewrite Hs. now left. }
    apply in_map_iff in Hin as (d & <- & _). apply dragonSignature_nonempty.
Qed.

Lemma applyDragon_createdBy env all k d updated :
  In d all ->
  Forall (createdBy env all) updated ->
  Forall (createdBy env all) (applyDragon env k d updated).
Proof.
  intros Hd Hall. unfold applyDragon.
  destruct (list_find _ updated) as [[idx existing]|] eqn:Hfind.
  - apply list_find_Some in Hfind as (Hidx & _ & _).
    destruct (Z.ltb_spec (StatRecord.streakLength existing) (Dragon.count d))
      as [Hlt|_]; [|exact Hall].
    apply Forall_insert; [exact Hall|].
    rewrite Forall_lookup in Hall.
    destruct (Hall idx existing Hidx) as (k0 & d0 & Hd0 & Ha).
    exists k0, d0. split; [exact Hd0|].
    eapply advances_trans; [exact Ha | now apply advances_bump].
  - apply Forall_app. split; [exact Hall|].
    constructor; [|constructor].
    exists k, d. split; [exact Hd | apply advances_refl].
Qed.

Lemma updateLoop_createdBy env all k ds updated :
  (forall d, In d ds -> In d all) ->
  Forall (createdBy env all) updated ->
  Forall (createdBy env all) (updateLoop env k ds updated).
Proof.
  revert k updated. induction ds as [|d ds IH]; intros k updated Hsub Hall; simpl.
  - exact Hall.
  - apply IH; [intros; apply Hsub; now right|].
    apply applyDragon_createdBy; [apply Hsub; now left | exact Hall].
Qed.

Lemma clear_declined remoteOk st : handleClearStats false remoteOk st = st.
Proof. reflexivity. Qed.

(** C8: a confirmed clear empties the record list and resets the stored
    fingerprint to the initial value whatever the remote clear answers, and
    the next tracked evaluation, also of the observation set that was
    fingerprinted before the clear, builds its records from the empty
    list: each is a record created in that evaluation. *)
Theorem clear_resets env tds bds remoteOk st :
  let st1 := handleClearStats true remoteOk st in
  dragonRecords st1 = []
  /\ prevDragonsRef st1 = ""
  /\ (forall remoteOk', handleClearStats true remoteOk' st = st1)
  /\ (isTracking st = true -> isInitializedRef st = true ->
      dragonRecords (trackingEffect env tds bds st1)
      = updateLoop env 0 (tds ++ bds) []
      /\ Forall (createdBy env (tds ++ bds))
           (dragonRecords (trackingEffect env tds bds st1))
      /\ (tds ++ bds <> [] ->
          dragonRecords (trackingEffect env tds bds st1) <> []
          /\ prevDragonsRef (trackingEffect env tds bds st1)
             = fingerprint (tds ++ bds))).
Proof.
  intros st1. split; [reflexivity|]. split; [reflexivity|].
  split; [reflexivity|]. intros Ht Hi.
  assert (Hrec : dragonRecords (trackingEffect env tds bds st1)
                 = updateLoop env 0 (tds ++ bds) []).
  { subst st1. unfold trackingEffect, handleClearStats. simpl.
    rewrite Ht, Hi. simpl.
    destruct (String.eqb _ _) eqn:Hfp; [|reflexivity].
    apply String.eqb_eq, fingerprint_empty_inv in Hfp. now rewrite Hfp. }
  split; [exact Hrec|]. split.
  - rewrite Hrec. apply updateLoop_createdBy; [auto | constructor].
  - intros Hne. split.
    + rewrite Hrec. destruct (tds ++ bds) as [|d ds]; [now destruct Hne|].
      simpl. change (applyDragon env 0 d []) with [newRecord env 0 d].
      intros Hnil.
      destruct (updateLoop_advances env 1 ds [newRecord env 0 d] 0
                  (newRecord env 0 d) eq_refl) as (r' & Hr' & _).
      rewrite Hnil in Hr'. discriminate.
    + subst st1. unfold trackingEffect, handleClearStats. simpl.
      rewrite Ht, Hi. simpl.
      destruct (String.eqb _ _) eqn:Hfp; [|reflexivity].
      apply String.eqb_eq, fingerprint_empty_inv in Hfp. now destruct Hne.
Qed.

Lemma clear_resets_witness :
  dragonRecords
    (trackingEffect (mkEnv (fun _ => 2000) (fun _ => "zz") (fun _ => 2000))
       [trendInfo (mkRule "r" 1 0 1) 3 8 parity (Streak.mk (Parity ODD) 4)] []
       (handleClearStats true false
          (trackingEffect (mkEnv (fun _ => 1000) (fun _ => "aa") (fun _ => 1000))
             [trendInfo (mkRule "r" 1 0 1) 3 8 parity (Streak.mk (Parity ODD) 4)] []
             (handleStartTracking (loadEffect None initialTracker)))))
  = [newRecord (mkEnv (fun _ => 2000) (fun _ => "zz") (fun _ => 2000)) 0
       (trendInfo (mkRule "r" 1 0 1) 3 8 parity (Streak.mk (Parity ODD) 4))].
Proof.
  exact (proj1 (proj2 (proj2 (proj2
    (clear_resets (mkEnv (fun _ => 2000) (fun _ => "zz") (fun _ => 2000))
       [trendInfo (mkRule "r" 1 0 1) 3 8 parity (Streak.mk (Parity ODD) 4)] []
       false
       (trackingEffect (mkEnv (fun _ => 1000) (fun _ => "aa") (fun _ => 1000))
          [trendInfo (mkRule "r" 1 0 1) 3 8 parity (Streak.mk (Parity ODD) 4)] []
          (handleStartTracking (loadEffect None initialTracker)))))) eq_refl eq_refl)).
Defined.

(** ** Defaults of a rule *)

Lemma jsOr_default x d : x = None \/ x = Some 0 -> jsOr x d = d.
Proof. now intros [->| ->]. Qed.

(** C9: a rule that omits the field, or gives it as zero, gets the start
    offset [0], the row count [6] and the streak threshold [3]; and as
    [dragonThreshold] is no field of the declared rule type, a rule that
    carries the declared fields only has the threshold [3] in every one of
    its observations. *)
Theorem rule_defaults :
  (forall rule,
     Rule.startBlock rule = None \/ Rule.startBlock rule = Some 0 ->
     epochOf rule = 0)
  /\ (forall rule,
        Rule.beadRows rule = None \/ Rule.beadRows rule = Some 0 ->
        rowsOf rule = 6)
  /\ (forall rule,
        Rule.dragonThreshold rule = None \/ Rule.dragonThreshold rule = Some 0 ->
        thresholdOf rule = 3)
  /\ (forall allBlocks rule d,
        Rule.dragonThreshold rule = None ->
        In d (ruleObservations allBlocks rule) ->
        Dragon.threshold d = 3)
  /\ (forall allBlocks followedPatterns activeFilter rule out d,
        Rule.dragonThreshold rule = None ->
        computeDragons allBlocks followedPatterns activeFilter [rule] = Some out ->
        (In d (trendDragons out) \/ In d (beadRowDragons out)) ->
        3 <= Dragon.count d).
Proof.
  split; [|split; [|split; [|split]]].
  - intros rule H. now apply jsOr_default.
  - intros rule H. now apply jsOr_default.
  - intros rule H. now apply jsOr_default.
  - intros allBlocks rule d Hnone Hd.
    apply ruleObservations_fields in Hd as (_ & -> & _).
    apply jsOr_default. now left.
  - intros allBlocks followedPatterns activeFilter rule out d Hnone Hout Hd.
    rewrite computeDragons_spec in Hout. injection Hout as <-. simpl in Hd.
    rewrite !sortDesc_In, !filter_In, !andb_true_iff, !admitMain_spec in Hd.
    assert (Hobs : In d (ruleObservations allBlocks rule)).
    { unfold allObservations in Hd. simpl in Hd. rewrite app_nil_r in Hd. tauto. }
    apply ruleObservations_fields in Hobs as (_ & Hthr & _).
    unfold thresholdOf in Hthr. rewrite Hnone in Hthr. simpl in Hthr.
    rewrite Hthr in Hd. tauto.
Qed.

Lemma rule_defaults_witness :
  epochOf (Rule.mk "r" "r" 1 None None None None) = 0
  /\ rowsOf (Rule.mk "r" "r" 1 (Some 0) None (Some 0) None) = 6
  /\ thresholdOf (Rule.mk "r" "r" 1 None None None (Some 0)) = 3.
Proof.
  split; [|split].
  - apply (proj1 rule_defaults). left. reflexivity.
  - apply (proj1 (proj2 rule_defaults)). right. reflexivity.
  - apply (proj1 (proj2 (proj2 rule_defaults))). right. reflexivity.
Defined.

(** ** Row identifiers *)

Lemma isFollowedBead_spec followedPatterns rule r type :
  isFollowedBead followedPatterns rule r type = true <->
  exists fp,
    In fp followedPatterns
    /\ Followed.ruleId fp = Rule.id rule
    /\ Followed.type fp = type
    /\ Followed.mode fp = bead
    /\ Followed.rowId fp = Some (r + 1).
Proof.
  unfold isFollowedBead. rewrite existsb_exists.
  split; intros (fp & Hin & H); exists fp; (split; [exact Hin|]).
  - rewrite !andb_true_iff, !bool_decide_eq_true in H. tauto.
  - rewrite !andb_true_iff, !bool_decide_eq_true. tauto.
Qed.

Lemma rowIdStr_positive k :
  1 <= k -> rowIdStr (Some k) = pretty k /\ rowIdStr (Some k) <> "".
Proof.
  intros Hk. unfold rowIdStr.
  destruct (Z.eqb_spec k 0) as [?|_]; [lia|].
  split; [reflexivity | apply pretty_Z_nonempty].
Qed.

(** C10: every row-mode observation carries the row index plus one, a
    number from [1] to the row count [N] and never [0], so that it prints
    in the keys; a watched row pattern is matched against that number; and
    a sequence-mode observation has no [rowId] and leaves the row position
    of its key and of its fingerprint entry empty. *)
Theorem row_id_one_based allBlocks followedPatterns activeFilter rules :
  exists out,
    computeDragons allBlocks followedPatterns activeFilter rules = Some out
    /\ (forall d,
          In d (trendDragons out) \/ In d (beadRowDragons out)
          \/ In d (followedResults out) ->
          match Dragon.mode d with
          | bead =>
              exists rule r,
                In rule rules /\ Dragon.ruleId d = Rule.id rule
                /\ 0 <= r < rowsOf rule
                /\ Dragon.rowId d = Some (r + 1)
                /\ 1 <= r + 1 <= rowsOf rule
                /\ rowIdStr (Dragon.rowId d) = pretty (r + 1)
                /\ rowIdStr (Dragon.rowId d) <> ""
          | trend =>
              Dragon.rowId d = None
              /\ dragonKey d
                 = Dragon.ruleId d +:+ "|" +:+ typeStr (Dragon.type d)
                   +:+ "|trend||" +:+ rawStr (Dragon.rawType d)
              /\ dragonSignature d
                 = Dragon.ruleId d +:+ "|" +:+ typeStr (Dragon.type d)
                   +:+ "|trend||" +:+ rawStr (Dragon.rawType d)
                   +:+ "|" +:+ pretty (Dragon.count d)
          end)
    /\ (forall d, In d (trendDragons out) -> Dragon.mode d = trend)
    /\ (forall d, In d (beadRowDragons out) -> Dragon.mode d = bead)
    /\ (forall rule r type,
          isFollowedBead followedPatterns rule r type = true <->
          exists fp,
            In fp followedPatterns
            /\ Followed.ruleId fp = Rule.id rule
            /\ Followed.type fp = type
            /\ Followed.mode fp = bead
            /\ Followed.rowId fp = Some (r + 1)).
Proof.
  rewrite computeDragons_spec. eexists. split; [reflexivity|]. simpl.
  split; [|split; [|split]].
  - intros d Hd.
    assert (Hobs : In d (allObservations allBlocks rules)).
    { rewrite !sortDesc_In, !filter_In in Hd. tauto. }
    unfold allObservations in Hobs.
    apply in_flat_map in Hobs as (rule & Hrule & Hobs).
    apply ruleObservations_fields in Hobs as (Hid & _ & Hmode).
    destruct (Dragon.mode d) eqn:Hm.
    + split; [exact Hmode|].
      unfold dragonSignature, dragonKey, keyStr. rewrite Hmode, Hm. simpl.
      split; [reflexivity|].
      destruct (Dragon.type d); rewrite !append_assoc; reflexivity.
    + destruct Hmode as (r & Hr & Hrow).
      exists rule, r. rewrite Hrow.
      destruct (rowIdStr_positive (r + 1)) as [Hs Hne]; [lia|].
      repeat split; try assumption; lia.
  - intros d. rewrite sortDesc_In, filter_In. unfold hasMode.
    rewrite andb_true_iff, bool_decide_eq_true. tauto.
  - intros d. rewrite sortDesc_In, filter_In. unfold hasMode.
    rewrite andb_true_iff, bool_decide_eq_true. tauto.
  - apply isFollowedBead_spec.
Qed.

Lemma row_id_one_based_witness :
  exists out,
    computeDragons [blk 3 ODD BIG; blk 2 ODD BIG; blk 1 ODD BIG] [] ALL
      [Rule.mk "r" "r" 1 (Some 0) None (Some 1) (Some 2)] = Some out
    /\ exists d, In d (beadRowDragons out) /\ Dragon.rowId d = Some 1.
Proof.
  destruct (row_id_one_based [blk 3 ODD BIG; blk 2 ODD BIG; blk 1 ODD BIG] [] ALL
              [Rule.mk "r" "r" 1 (Some 0) None (Some 1) (Some 2)])
    as (out & Hout & Hrow & _ & Hbead & _).
  exists out. split; [exact Hout|].
  assert (Hsome : computeDragons [blk 3 ODD BIG; blk 2 ODD BIG; blk 1 ODD BIG] []
                    ALL [Rule.mk "r" "r" 1 (Some 0) None (Some 1) (Some 2)]
                  = Some out) by exact Hout.
  vm_compute in Hsome. injection Hsome as <-.
  eexists. split; [left; reflexivity | reflexivity].
Defined.

(** * Further properties of the aggregation *)

Lemma sorted_of_equal_keys {A} (key : A -> Z) (c : Z) (l : list A) :
  Forall (fun x => key x = c) l -> StronglySorted (descBy key) l.
Proof.
  induction 1 as [|x l Hx Hall IH]; constructor; [exact IH|].
  eapply List.Forall_impl; [|exact Hall].
  unfold descBy. intros y Hy. lia.
Qed.

(** The stable sort keeps the elements of one key in their order. *)
Lemma sortDesc_stable {A} (key : A -> Z) (c : Z) (l : list A) :
  List.filter (fun x => key x =? c) (sortDesc key l)
  = List.filter (fun x => key x =? c) l.
Proof.
  rewrite sortDesc_filter. apply sortDesc_sorted_id.
  apply (sorted_of_equal_keys key c).
  apply List.Forall_forall. intros x Hx.
  apply filter_In in Hx as [_ Hx]. now apply Z.eqb_eq.
Qed.

(** X1: each of the three result lists is in descending order of streak
    length, holds exactly the admitted observations, each as often as it
    was built, and keeps observations of one length in the order in which
    the rules, and within a rule the dimensions and rows, produced them. *)
Theorem results_ordered allBlocks followedPatterns activeFilter rules :
  exists out,
    computeDragons allBlocks followedPatterns activeFilter rules = Some out
    /\ StronglySorted (descBy Dragon.count) (trendDragons out)
    /\ StronglySorted (descBy Dragon.count) (beadRowDragons out)
    /\ StronglySorted (descBy Dragon.count) (followedResults out)
    /\ Permutation (trendDragons out)
         (List.filter (fun d => hasMode trend d && admitMain activeFilter d)
            (allObservations allBlocks rules))
    /\ Permutation (beadRowDragons out)
         (List.filter (fun d => hasMode bead d && admitMain activeFilter d)
            (allObservations allBlocks rules))
    /\ Permutation (followedResults out)
         (List.filter (admitWatch followedPatterns activeFilter)
            (allObservations allBlocks rules))
    /\ forall c,
         List.filter (fun d => Dragon.count d =? c) (trendDragons out)
         = List.filter (fun d => Dragon.count d =? c)
             (List.filter (fun d => hasMode trend d && admitMain activeFilter d)
                (allObservations allBlocks rules))
         /\ List.filter (fun d => Dragon.count d =? c) (beadRowDragons out)
            = List.filter (fun d => Dragon.count d =? c)
                (List.filter (fun d => hasMode bead d && admitMain activeFilter d)
                   (allObservations allBlocks rules))
         /\ List.filter (fun d => Dragon.count d =? c) (followedResults out)
            = List.filter (fun d => Dragon.count d =? c)
                (List.filter (admitWatch followedPatterns activeFilter)
                   (allObservations allBlocks rules)).
Proof.
  rewrite computeDragons_spec. eexists. split; [reflexivity|]. simpl.
  repeat (split; [apply sortDesc_sorted|]).
  repeat (split; [symmetry; apply sortDesc_perm|]).
  intros c. rewrite !sortDesc_stable. auto.
Qed.

(** One step along the lattice of a rule. *)
Lemma checkAlignment_next interval epoch h :
  1 <= interval ->
  checkAlignment interval epoch h = true ->
  checkAlignment interval epoch (h + interval) = true
  /\ forall h', h < h' < h + interval ->
       checkAlignment interval epoch h' = false.
Proof.
  intros Hi. unfold checkAlignment.
  destruct (Z.leb_spec interval 1) as [Hle|Hgt].
  - intros _. split; [reflexivity|]. intros h' Hh'. lia.
  - destruct (Z.ltb_spec 0 epoch) as [He|He].
    + rewrite andb_true_iff, Z.leb_le, Z.eqb_eq, Z.rem_divide by lia.
      intros [Hge [k Hk]]. split.
      * rewrite andb_true_iff, Z.leb_le, Z.eqb_eq, Z.rem_divide by lia.
        split; [lia|]. exists (k + 1). lia.
      * intros h' Hh'. apply andb_false_iff.
        destruct (Z.leb_spec epoch h') as [_|?]; [right | now left].
        apply Z.eqb_neq. rewrite Z.rem_divide by lia. intros [k' Hk'].
        assert (k' <= k \/ k + 1 <= k') as [?|?] by lia; nia.
    + rewrite Z.eqb_eq, Z.rem_divide by lia. intros [k Hk]. split.
      * rewrite Z.eqb_eq, Z.rem_divide by lia. exists (k + 1). lia.
      * intros h' Hh'. apply Z.eqb_neq. rewrite Z.rem_divide by lia.
        intros [k' Hk'].
        assert (k' <= k \/ k + 1 <= k') as [?|?] by lia; nia.
Qed.

Lemma filteredOf_head allBlocks rule b0 rest :
  filteredOf allBlocks rule = b0 :: rest ->
  In b0 allBlocks
  /\ checkAlignment (intervalOf rule) (epochOf rule) (Block.height b0) = true
  /\ forall b, In b (filteredOf allBlocks rule) ->
       Block.height b <= Block.height b0.
Proof.
  intros Hf.
  assert (Hin : In b0 (filteredOf allBlocks rule)) by (rewrite Hf; now left).
  apply filteredOf_In in Hin as [Hin Hal]. split; [exact Hin|]. split; [exact Hal|].
  pose proof (sortDesc_sorted Block.height
                (List.filter
                   (fun b => checkAlignment (intervalOf rule) (epochOf rule)
                               (Block.height b)) allBlocks)) as Hs.
  fold (filteredOf allBlocks rule) in Hs. rewrite Hf in Hs |- *.
  apply StronglySorted_inv in Hs as [_ Hs]. rewrite List.Forall_forall in Hs.
  intros b [<-|Hb]; [lia | now apply Hs].
Qed.

(** X2: with [interval >= 1], the height a sequence-mode observation
    predicts is the newest aligned height plus the interval; it is on the
    rule's lattice, above every aligned block, and no height in between is
    on the lattice. *)
Theorem trend_next_height allBlocks rule d :
  1 <= intervalOf rule ->
  In d (ruleObservations allBlocks rule) ->
  Dragon.mode d = trend ->
  exists b0,
    In b0 (filteredOf allBlocks rule)
    /\ (forall b, In b (filteredOf allBlocks rule) ->
          Block.height b <= Block.height b0)
    /\ Dragon.nextHeight d = Block.height b0 + intervalOf rule
    /\ checkAlignment (intervalOf rule) (epochOf rule) (Dragon.nextHeight d)
       = true
    /\ forall h', Block.height b0 < h' < Dragon.nextHeight d ->
         checkAlignment (intervalOf rule) (epochOf rule) h' = false.
Proof.
  intros Hi Hd Hm. unfold ruleObservations in Hd.
  destruct (filteredOf allBlocks rule) as [|b0 rest] eqn:Hf; [destruct Hd|].
  destruct (filteredOf_head _ _ _ _ Hf) as (_ & Hal & Hmax).
  rewrite Hf in Hmax.
  destruct (checkAlignment_next _ _ _ Hi Hal) as [Hnext Hgap].
  assert (Hnh : Dragon.nextHeight d = Block.height b0 + intervalOf rule).
  { apply in_app_iff in Hd as [[<-|[<-|[]]]|Hd]; try reflexivity.
    apply in_flat_map in Hd as (r & _ & Hd).
    apply rowObservations_fields in Hd as (_ & _ & Hb & _). congruence. }
  exists b0. rewrite Hnh. split; [now left|]. auto.
Qed.

Lemma trend_next_height_witness :
  exists b0,
    In b0 (filteredOf [blk 9 ODD BIG; blk 6 ODD BIG; blk 7 EVEN BIG]
             (mkRule "r" 3 0 2))
    /\ 12 = Block.height b0 + 3.
Proof.
  destruct (trend_next_height [blk 9 ODD BIG; blk 6 ODD BIG; blk 7 EVEN BIG]
              (mkRule "r" 3 0 2)
              (trendInfo (mkRule "r" 3 0 2) 3 12 parity (Streak.mk (Parity ODD) 2)))
    as (b0 & Hin & _ & Hnh & _).
  - vm_compute. discriminate.
  - left. reflexivity.
  - reflexivity.
  - exists b0. split; [exact Hin | exact Hnh].
Defined.

Lemma inRow_true_iff interval epoch rows r h :
  interval <> 0 -> rows <> 0 ->
  inRow interval epoch rows r h = true <->
  Z.rem ((h - epoch) / interval) rows = r.
Proof.
  intros Hi Hr. unfold inRow, logicalIdx.
  destruct (Z.eqb_spec interval 0) as [?|_]; [contradiction|].
  destruct (Z.eqb_spec rows 0) as [?|_]; [contradiction|].
  apply Z.eqb_eq.
Qed.

Lemma aligned_divides interval epoch h :
  1 <= interval -> 0 <= epoch ->
  checkAlignment interval epoch h = true -> (interval | h - epoch).
Proof.
  intros Hi He. unfold checkAlignment.
  destruct (Z.leb_spec interval 1) as [Hle|Hgt].
  - intros _. replace interval with 1 by lia. apply Z.divide_1_l.
  - destruct (Z.ltb_spec 0 epoch) as [Hpos|Hzero].
    + rewrite andb_true_iff, Z.eqb_eq, Z.rem_divide by lia. tauto.
    + rewrite Z.eqb_eq, Z.rem_divide by lia.
      replace (h - epoch) with h by lia. tauto.
Qed.

Lemma checkAlignment_shift interval epoch h k :
  1 <= interval -> 0 <= k ->
  checkAlignment interval epoch h = true ->
  checkAlignment interval epoch (h + interval * k) = true.
Proof.
  intros Hi Hk. unfold checkAlignment.
  destruct (Z.leb_spec interval 1) as [Hle|Hgt]; [reflexivity|].
  destruct (Z.ltb_spec 0 epoch) as [Hpos|Hzero].
  - rewrite !andb_true_iff, !Z.leb_le, !Z.eqb_eq, !Z.rem_divide by lia.
    intros [Hge [q Hq]]. split; [nia|]. exists (q + k). lia.
  - rewrite !Z.eqb_eq, !Z.rem_divide by lia.
    intros [q Hq]. exists (q + k). lia.
Qed.

Lemma rem_shift q rows r :
  0 < rows -> 0 <= r -> Z.rem q rows = r -> Z.rem (q + rows) rows = r.
Proof.
  intros Hrows Hr Hq.
  destruct (Z_lt_le_dec q 0) as [Hneg|Hpos].
  - assert (H0 : r = 0).
    { pose proof (Z.rem_nonpos q rows) as H. lia. }
    rewrite H0 in Hq |- *. rewrite Z.rem_divide in Hq |- * by lia.
    destruct Hq as [t Ht]. exists (t + 1). lia.
  - rewrite Z.rem_mod_nonneg in Hq |- * by lia.
    rewrite <- Hq. replace (q + rows) with (q + 1 * rows) by lia.
    apply Z_mod_plus_full.
Qed.

Lemma inRow_shift interval epoch rows r h :
  interval <> 0 -> 0 < rows -> 0 <= r ->
  inRow interval epoch rows r h = true ->
  inRow interval epoch rows r (h + interval * rows) = true.
Proof.
  intros Hi Hrows Hr.
  rewrite !inRow_true_iff by lia. intros Hq.
  replace (h + interval * rows - epoch) with (h - epoch + rows * interval) by lia.
  rewrite Z.div_add by exact Hi. now apply rem_shift.
Qed.

(** Between a block of a row and the row's next height no aligned height
    is in the row. *)
Lemma inRow_gap interval epoch rows r h h' :
  1 <= interval -> 0 <= epoch -> 0 < rows ->
  checkAlignment interval epoch h = true ->
  inRow interval epoch rows r h = true ->
  h < h' < h + interval * rows ->
  checkAlignment interval epoch h' = true ->
  inRow interval epoch rows r h' = false.
Proof.
  intros Hi He Hrows Hal Hrow Hh' Hal'.
  apply not_true_is_false. intros Hrow'.
  rewrite inRow_true_iff in Hrow, Hrow' by lia.
  apply aligned_divides in Hal as [q Hq]; [|lia..].
  apply aligned_divides in Hal' as [q' Hq']; [|lia..].
  rewrite Hq, Z.div_mul in Hrow by lia.
  rewrite Hq', Z.div_mul in Hrow' by lia.
  pose proof (Z.quot_rem' q rows) as E. pose proof (Z.quot_rem' q' rows) as E'.
  rewrite Hrow in E. rewrite Hrow' in E'.
  assert (Hd : q' - q = rows * (q' ÷ rows - q ÷ rows)) by lia.
  assert (Hlt : 0 < q' - q < rows) by nia.
  set (t := q' ÷ rows - q ÷ rows) in *.
  assert (t <= 0 \/ 1 <= t) as [?|?] by lia; nia.
Qed.

(** X3: with [interval >= 1] and [startBlock >= 0], the height a row-mode
    observation of row [r] predicts is the newest height of the row plus
    [interval * rows]; that height is on the rule's lattice and in row
    [r] again, and no aligned height in between is in row [r]. *)
Theorem row_next_height allBlocks rule r d :
  1 <= intervalOf rule -> 0 <= epochOf rule -> 0 <= r < rowsOf rule ->
  In d (rowObservations rule (filteredOf allBlocks rule) r) ->
  exists b0,
    In b0 (rowItemsOf (intervalOf rule) (epochOf rule) (rowsOf rule)
             (filteredOf allBlocks rule) r)
    /\ (forall b,
          In b (rowItemsOf (intervalOf rule) (epochOf rule) (rowsOf rule)
                  (filteredOf allBlocks rule) r) ->
          Block.height b <= Block.height b0)
    /\ Dragon.nextHeight d = Block.height b0 + intervalOf rule * rowsOf rule
    /\ checkAlignment (intervalOf rule) (epochOf rule) (Dragon.nextHeight d)
       = true
    /\ inRow (intervalOf rule) (epochOf rule) (rowsOf rule) r
         (Dragon.nextHeight d) = true
    /\ forall h',
         Block.height b0 < h' < Dragon.nextHeight d ->
         checkAlignment (intervalOf rule) (epochOf rule) h' = true ->
         inRow (intervalOf rule) (epochOf rule) (rowsOf rule) r h' = false.
Proof.
  intros Hi He Hr Hd.
  apply rowObservations_fields in Hd as (_ & _ & _ & _ & b0 & rest & Hrow & Hnh).
  assert (Hin : In b0 (rowItemsOf (intervalOf rule) (epochOf rule) (rowsOf rule)
                         (filteredOf allBlocks rule) r))
    by (rewrite Hrow; now left).
  pose proof Hin as Hin'.
  apply rowItemsOf_In in Hin' as [Hf Hrow0].
  apply filteredOf_In in Hf as [_ Hal].
  exists b0. rewrite Hnh. split; [exact Hin|]. split; [|split; [reflexivity|]].
  - assert (Hs : StronglySorted (descBy Block.height) (b0 :: rest)).
    { rewrite <- Hrow. apply filter_StronglySorted, sortDesc_sorted. }
    apply StronglySorted_inv in Hs as [_ Hs]. rewrite List.Forall_forall in Hs.
    rewrite Hrow. intros b [<-|Hb]; [lia | now apply Hs].
  - split; [apply checkAlignment_shift; [lia | lia | exact Hal]|].
    split; [apply inRow_shift; [lia | lia | lia | exact Hrow0]|].
    intros h' Hh' Hal'.
    apply (inRow_gap _ _ _ _ (Block.height b0)); try assumption; lia.
Qed.

Lemma row_next_height_witness :
  exists b0,
    In b0 (rowItemsOf 3 0 2
             (filteredOf [blk 9 ODD BIG; blk 6 ODD BIG; blk 3 EVEN BIG]
                (mkRule "r" 3 0 2)) 1)
    /\ 15 = Block.height b0 + 3 * 2.
Proof.
  destruct (row_next_height [blk 9 ODD BIG; blk 6 ODD BIG; blk 3 EVEN BIG]
              (mkRule "r" 3 0 2) 1
              (beadInfo (mkRule "r" 3 0 2) 3 15 1 parity (Streak.mk (Parity ODD) 1)))
    as (b0 & Hin & _ & Hnh & _).
  - vm_compute. discriminate.
  - vm_compute. discriminate.
  - split; [vm_compute; discriminate | reflexivity].
  - left. reflexivity.
  - exists b0. split; [exact Hin | exact Hnh].
Defined.

Lemma ruleObservations_classShown allBlocks rule d :
  In d (ruleObservations allBlocks rule) -> classShown d.
Proof.
  unfold ruleObservations.
  destruct (filteredOf allBlocks rule) as [|b0 rest]; [intros []|].
  rewrite in_app_iff, in_flat_map.
  intros [[<-|[<-|[]]]|(r & _ & Hd)].
  - unfold classShown. simpl. destruct (Block.type b0); repeat split.
  - unfold classShown. simpl. destruct (Block.sizeType b0); repeat split.
  - unfold rowObservations in Hd.
    destruct (rowItemsOf _ _ _ _ r) as [|c0 crest]; [destruct Hd|].
    destruct Hd as [<-|[<-|[]]]; unfold classShown; simpl.
    + destruct (Block.type c0); repeat split.
    + destruct (Block.sizeType c0); repeat split.
Qed.

Lemma output_observation allBlocks followedPatterns activeFilter rules d :
  In d (sortDesc Dragon.count
          (List.filter (fun d => hasMode trend d && admitMain activeFilter d)
             (allObservations allBlocks rules)))
  \/ In d (sortDesc Dragon.count
             (List.filter (fun d => hasMode bead d && admitMain activeFilter d)
                (allObservations allBlocks rules)))
  \/ In d (sortDesc Dragon.count
             (List.filter (admitWatch followedPatterns activeFilter)
                (allObservations allBlocks rules))) ->
  (exists rule, In rule rules /\ In d (ruleObservations allBlocks rule))
  /\ matchesFilter activeFilter (Dragon.rawType d) = true.
Proof.
  rewrite !sortDesc_In, !filter_In. unfold allObservations, admitMain, admitWatch.
  rewrite in_flat_map, !andb_true_iff. tauto.
Qed.

(** X4: in every result list the dimension of an observation agrees with
    its class (parity with ODD or EVEN, size with BIG or SMALL), the label
    and the colour are those of the class, and under a class filter every
    listed observation has the class of the filter. *)
Theorem class_consistent allBlocks followedPatterns activeFilter rules :
  exists out,
    computeDragons allBlocks followedPatterns activeFilter rules = Some out
    /\ forall d,
         In d (trendDragons out) \/ In d (beadRowDragons out)
         \/ In d (followedResults out) ->
         classShown d
         /\ forall c, activeFilter = Only c -> Dragon.rawType d = c.
Proof.
  rewrite computeDragons_spec. eexists. split; [reflexivity|]. simpl.
  intros d Hd. apply output_observation in Hd as [(rule & _ & Hobs) Hm].
  split; [eapply ruleObservations_classShown; eassumption|].
  intros c ->. simpl in Hm. now apply bool_decide_eq_true in Hm.
Qed.

Lemma filter_none {A} (p : A -> bool) (l : list A) :
  (forall x, In x l -> p x = false) <-> List.filter p l = [].
Proof.
  induction l as [|x l IH]; simpl; [tauto|].
  destruct (p x) eqn:Hx.
  - split; [|discriminate]. intros H. specialize (H x (or_introl eq_refl)).
    congruence.
  - rewrite <- IH. split.
    + intros H y Hy. apply H. now right.
    + intros H y [<-|Hy]; [exact Hx | now apply H].
Qed.

Lemma streakLoop_head_bounds key b l :
  1 <= streakLoop key (readKey key b) (b :: l) 0 <= Z.of_nat (length (b :: l)).
Proof.
  destruct (streakLoop_spec key (readKey key b) (b :: l) 0)
    as (n & Hn & Hlen & _ & Hstop).
  rewrite Hn. destruct n as [|n]; [|lia].
  exfalso. now apply (Hstop b).
Qed.

Lemma filteredOf_length allBlocks rule :
  (length (filteredOf allBlocks rule) <= length allBlocks)%nat.
Proof.
  unfold filteredOf.
  rewrite <- (Permutation_length (sortDesc_perm Block.height _)).
  apply List.filter_length_le.
Qed.

Lemma ruleObservations_count allBlocks rule d :
  In d (ruleObservations allBlocks rule) ->
  1 <= Dragon.count d <= Z.of_nat (length allBlocks).
Proof.
  pose proof (filteredOf_length allBlocks rule) as Hlen.
  unfold ruleObservations.
  destruct (filteredOf allBlocks rule) as [|b0 rest] eqn:Hf; [intros []|].
  rewrite in_app_iff, in_flat_map.
  intros [[<-|[<-|[]]]|(r & _ & Hd)]; simpl.
  - pose proof (streakLoop_head_bounds KType b0 rest). simpl in *. lia.
  - pose proof (streakLoop_head_bounds KSizeType b0 rest). simpl in *. lia.
  - unfold rowObservations in Hd.
    pose proof (List.filter_length_le
                  (fun b => inRow (intervalOf rule) (epochOf rule) (rowsOf rule) r
                              (Block.height b)) (b0 :: rest)) as Hrl.
    fold (rowItemsOf (intervalOf rule) (epochOf rule) (rowsOf rule)
            (b0 :: rest) r) in Hrl.
    destruct (rowItemsOf _ _ _ _ r) as [|c0 crest]; [destruct Hd|].
    destruct Hd as [<-|[<-|[]]]; simpl.
    + pose proof (streakLoop_head_bounds KType c0 crest). simpl in *. lia.
    + pose proof (streakLoop_head_bounds KSizeType c0 crest). simpl in *. lia.
Qed.

(** X5: the length of every listed observation is at least one and at
    most the number of blocks, and in the two main lists it is at least
    the threshold the observation carries; so a threshold above the number
    of blocks admits nothing. *)
Theorem count_bounds allBlocks followedPatterns activeFilter rules :
  exists out,
    computeDragons allBlocks followedPatterns activeFilter rules = Some out
    /\ (forall d,
          In d (trendDragons out) \/ In d (beadRowDragons out)
          \/ In d (followedResults out) ->
          1 <= Dragon.count d <= Z.of_nat (length allBlocks))
    /\ (forall d,
          In d (trendDragons out) \/ In d (beadRowDragons out) ->
          Dragon.threshold d <= Dragon.count d)
    /\ ((forall rule, In rule rules ->
           Z.of_nat (length allBlocks) < thresholdOf rule) ->
        trendDragons out = [] /\ beadRowDragons out = []).
Proof.
  rewrite computeDragons_spec. eexists. split; [reflexivity|]. simpl.
  split; [|split].
  - intros d Hd. apply output_observation in Hd as [(rule & _ & Hobs) _].
    eapply ruleObservations_count; eassumption.
  - intros d. rewrite !sortDesc_In, !filter_In, !andb_true_iff, !admitMain_spec.
    tauto.
  - intros Hbig.
    assert (Hnone : forall m,
              List.filter (fun d => hasMode m d && admitMain activeFilter d)
                (allObservations allBlocks rules) = []).
    { intros m. apply filter_none. intros d Hd.
      unfold allObservations in Hd.
      apply in_flat_map in Hd as (rule & Hrule & Hd).
      pose proof (ruleObservations_count _ _ _ Hd) as Hc.
      apply ruleObservations_fields in Hd as (_ & Hthr & _).
      specialize (Hbig rule Hrule).
      unfold admitMain. apply andb_false_iff. right. apply andb_false_iff. left.
      apply Z.leb_gt. lia. }
    now rewrite !Hnone.
Qed.

Lemma count_bounds_witness :
  exists out,
    computeDragons [blk 2 ODD BIG; blk 1 ODD BIG] [] ALL [mkRule "r" 1 0 1]
    = Some out
    /\ trendDragons out = [] /\ beadRowDragons out = [].
Proof.
  destruct (count_bounds [blk 2 ODD BIG; blk 1 ODD BIG] [] ALL [mkRule "r" 1 0 1])
    as (out & Hout & _ & _ & Hbig).
  exists out. split; [exact Hout|]. apply Hbig.
  intros rule [<-|[]]. vm_compute. reflexivity.
Defined.

Lemma sortDesc_nil_iff {A} (key : A -> Z) (l : list A) :
  sortDesc key l = [] <-> l = [].
Proof.
  split; [|now intros ->]. intros H.
  pose proof (Permutation_length (sortDesc_perm key l)) as Hlen.
  rewrite H in Hlen. now destruct l.
Qed.

Lemma ruleObservations_nil_iff allBlocks rule :
  ruleObservations allBlocks rule = [] <->
  forall b, In b allBlocks ->
    checkAlignment (intervalOf rule) (epochOf rule) (Block.height b) = false.
Proof.
  rewrite (filter_none
             (fun b => checkAlignment (intervalOf rule) (epochOf rule)
                         (Block.height b))).
  rewrite <- (sortDesc_nil_iff Block.height).
  fold (filteredOf allBlocks rule). unfold ruleObservations.
  destruct (filteredOf allBlocks rule); [tauto|].
  split; discriminate.
Qed.

(** X6: a rule none of whose blocks is aligned contributes no
    observation, and any other rule contributes its two sequence-mode
    observations; so the three lists are empty when there is no block, no
    rule, or no block aligned with any rule. *)
Theorem no_aligned_block allBlocks followedPatterns activeFilter rules :
  (forall rule,
     (ruleObservations allBlocks rule = [] <->
      forall b, In b allBlocks ->
        checkAlignment (intervalOf rule) (epochOf rule) (Block.height b)
        = false)
     /\ (ruleObservations allBlocks rule <> [] ->
         exists dp ds rest,
           ruleObservations allBlocks rule = dp :: ds :: rest
           /\ Dragon.mode dp = trend /\ Dragon.type dp = parity
           /\ Dragon.mode ds = trend /\ Dragon.type ds = size
           /\ Forall (fun d => Dragon.mode d = bead) rest))
  /\ ((forall rule b, In rule rules -> In b allBlocks ->
         checkAlignment (intervalOf rule) (epochOf rule) (Block.height b)
         = false) ->
      computeDragons allBlocks followedPatterns activeFilter rules
      = Some (mkDragons [] [] [])).
Proof.
  split.
  - intros rule. split; [apply ruleObservations_nil_iff|].
    unfold ruleObservations.
    destruct (filteredOf allBlocks rule) as [|b0 rest]; [now intros []|].
    intros _. eexists _, _, _. split; [reflexivity|]. simpl.
    repeat (split; [reflexivity|]).
    apply List.Forall_forall. intros d Hd.
    apply in_flat_map in Hd as (r & _ & Hd).
    now apply rowObservations_fields in Hd.
  - intros Hnone. rewrite computeDragons_spec.
    assert (Hobs : allObservations allBlocks rules = []).
    { unfold allObservations. clear -Hnone.
      induction rules as [|rule rules IH]; [reflexivity|]. simpl.
      rewrite (proj2 (ruleObservations_nil_iff allBlocks rule)).
      - apply IH. intros r b Hr. apply Hnone. now right.
      - intros b. apply Hnone. now left. }
    now rewrite Hobs.
Qed.

Lemma no_aligned_block_witness :
  computeDragons [blk 7 ODD BIG; blk 5 EVEN BIG] [] ALL [mkRule "r" 3 0 2]
  = Some (mkDragons [] [] []).
Proof.
  apply (proj2 (no_aligned_block [blk 7 ODD BIG; blk 5 EVEN BIG] [] ALL
                  [mkRule "r" 3 0 2])).
  intros rule b [<-|[]] [<-|[<-|[]]]; reflexivity.
Defined.

(** X7: no block is in two rows; and with [interval >= 1] and a positive
    row count every filtered block at or above the start block is in
    exactly one of the rows [0 .. rows - 1]. *)
Theorem rows_partition allBlocks rule :
  let filtered := filteredOf allBlocks rule in
  let interval := intervalOf rule in
  let epoch := epochOf rule in
  let rows := rowsOf rule in
  (forall b r1 r2,
     In b (rowItemsOf interval epoch rows filtered r1) ->
     In b (rowItemsOf interval epoch rows filtered r2) -> r1 = r2)
  /\ (forall b,
        1 <= interval -> 0 < rows -> In b filtered ->
        epoch <= Block.height b ->
        exists r,
          0 <= r < rows
          /\ In r (seqZ 0 rows)
          /\ In b (rowItemsOf interval epoch rows filtered r)
          /\ forall r', In b (rowItemsOf interval epoch rows filtered r') ->
               r' = r).
Proof.
  intros filtered interval epoch rows.
  assert (Hdisj : forall b r1 r2,
            In b (rowItemsOf interval epoch rows filtered r1) ->
            In b (rowItemsOf interval epoch rows filtered r2) -> r1 = r2).
  { intros b r1 r2 H1 H2.
    apply rowItemsOf_In in H1 as [_ H1]. apply rowItemsOf_In in H2 as [_ H2].
    unfold inRow in H1, H2.
    destruct (logicalIdx interval epoch (Block.height b)); [|discriminate].
    destruct (rows =? 0); [discriminate|].
    apply Z.eqb_eq in H1, H2. congruence. }
  split; [exact Hdisj|].
  intros b Hi Hrows Hin Hb.
  set (r := ((Block.height b - epoch) / interval) mod rows).
  assert (Hr : 0 <= r < rows) by (apply Z.mod_pos_bound; lia).
  assert (Hrow : In b (rowItemsOf interval epoch rows filtered r)).
  { apply rowItemsOf_In. split; [exact Hin|].
    apply inRow_spec; [lia | lia | exact Hr | reflexivity]. }
  exists r. split; [exact Hr|]. split.
  - apply list_elem_of_In, elem_of_seqZ. lia.
  - split; [exact Hrow|]. intros r' Hr'. now apply (Hdisj b).
Qed.

Lemma rows_partition_witness :
  exists r,
    0 <= r < 2
    /\ In (blk 9 ODD BIG)
         (rowItemsOf 3 0 2
            (filteredOf [blk 9 ODD BIG; blk 6 EVEN BIG] (mkRule "r" 3 0 2)) r).
Proof.
  destruct (proj2 (rows_partition [blk 9 ODD BIG; blk 6 EVEN BIG]
                     (mkRule "r" 3 0 2)) (blk 9 ODD BIG))
    as (r & Hr & _ & Hin & _).
  - vm_compute. discriminate.
  - reflexivity.
  - left. reflexivity.
  - vm_compute. discriminate.
  - exists r. split; [exact Hr | exact Hin].
Defined.

(** * Further properties of the tracker *)

Lemma map_insert_same {A B} (f : A -> B) (l : list A) (i : nat) x y :
  l !! i = Some x -> f y = f x -> map f (<[i := y]> l) = map f l.
Proof.
  revert i. induction l as [|z l IH]; intros [|i] Hi Hf; simpl in *;
    try discriminate.
  - injection Hi as ->. now rewrite Hf.
  - f_equal. now apply IH.
Qed.

Lemma NoDup_snoc {A} (l : list A) x :
  List.NoDup l -> ~ In x l -> List.NoDup (l ++ [x]).
Proof.
  intros Hnd Hx. eapply Permutation_NoDup; [apply Permutation_cons_append|].
  now constructor.
Qed.

Lemma applyDragon_keys env k d updated :
  map recordKey (applyDragon env k d updated) = map recordKey updated
  \/ (~ In (dragonKey d) (map recordKey updated)
      /\ map recordKey (applyDragon env k d updated)
         = map recordKey updated ++ [dragonKey d]).
Proof.
  unfold applyDragon.
  destruct (list_find _ updated) as [[idx existing]|] eqn:Hfind.
  - left. apply list_find_Some in Hfind as (Hidx & _ & _).
    destruct (_ <? _); [|reflexivity].
    now apply (map_insert_same recordKey updated idx existing).
  - right. apply list_find_None in Hfind. rewrite List.Forall_forall in Hfind.
    split.
    + rewrite in_map_iff. intros (r & Hr & Hin). now apply (Hfind r Hin).
    + now rewrite map_app.
Qed.

Lemma applyDragon_NoDup env k d updated :
  List.NoDup (map recordKey updated) ->
  List.NoDup (map recordKey (applyDragon env k d updated)).
Proof.
  intros Hnd. destruct (applyDragon_keys env k d updated) as [->|[Hx ->]];
    [exact Hnd | now apply NoDup_snoc].
Qed.

Lemma updateLoop_NoDup env k ds updated :
  List.NoDup (map recordKey updated) ->
  List.NoDup (map recordKey (updateLoop env k ds updated)).
Proof.
  revert k updated. induction ds as [|d ds IH]; intros k updated Hnd; simpl.
  - exact Hnd.
  - apply IH. now apply applyDragon_NoDup.
Qed.

Lemma stepTracker_NoDup st ev :
  List.NoDup (map recordKey (dragonRecords st)) ->
  List.NoDup (map recordKey (dragonRecords (stepTracker st ev))).
Proof.
  intros Hnd. destruct ev as [env tds bds| |]; simpl; try exact Hnd.
  unfold trackingEffect.
  destruct (_ || _); [exact Hnd|]. destruct (String.eqb _ _); [exact Hnd|].
  simpl. now apply updateLoop_NoDup.
Qed.

Lemma runTracker_NoDup evs st :
  List.NoDup (map recordKey (dragonRecords st)) ->
  List.NoDup (map recordKey (dragonRecords (runTracker evs st))).
Proof.
  unfold runTracker. revert st.
  induction evs as [|ev evs IH]; intros st Hnd; simpl; [exact Hnd|].
  apply IH. now apply stepTracker_NoDup.
Qed.

(** X8: tracking never gives two records one signature: if the keys of
    the records are pairwise distinct they stay so over any sequence of
    tracking runs and start and stop requests, and after a confirmed clear
    they are distinct whatever was stored before; a signature then names
    at most one record. *)
Theorem one_record_per_signature :
  (forall evs st,
     List.NoDup (map recordKey (dragonRecords st)) ->
     List.NoDup (map recordKey (dragonRecords (runTracker evs st))))
  /\ (forall evs remoteOk st,
        List.NoDup
          (map recordKey
             (dragonRecords (runTracker evs (handleClearStats true remoteOk st)))))
  /\ (forall evs remoteOk st (i j : nat) ri rj,
        let recs :=
          dragonRecords (runTracker evs (handleClearStats true remoteOk st)) in
        recs !! i = Some ri -> recs !! j = Some rj ->
        recordKey ri = recordKey rj -> i = j).
Proof.
  assert (Hclear : forall evs remoteOk st,
            List.NoDup
              (map recordKey
                 (dragonRecords
                    (runTracker evs (handleClearStats true remoteOk st))))).
  { intros evs remoteOk st. apply runTracker_NoDup. simpl. constructor. }
  split; [exact runTracker_NoDup|]. split; [exact Hclear|].
  intros evs remoteOk st i j ri rj recs Hi Hj Hkey.
  specialize (Hclear evs remoteOk st). fold recs in Hclear.
  apply NoDup_ListNoDup in Hclear.
  apply (NoDup_lookup _ i j (recordKey ri) Hclear).
  - change (map recordKey recs) with (recordKey <$> recs).
    now rewrite list_lookup_fmap, Hi.
  - change (map recordKey recs) with (recordKey <$> recs).
    now rewrite list_lookup_fmap, Hj, Hkey.
Qed.

Lemma one_record_per_signature_witness :
  List.NoDup
    (map recordKey
       (dragonRecords
          (runTracker
             [EvTrack (mkEnv (fun _ => 2000) (fun _ => "zz") (fun _ => 2000))
                [trendInfo (mkRule "r" 1 0 1) 3 9 parity (Streak.mk (Parity ODD) 5)]
                []]
             (handleStartTracking (loadEffect None initialTracker))))).
Proof.
  apply (proj1 one_record_per_signature). simpl. constructor.
Defined.

Lemma applyDragon_covers env k d updated :
  exists (i : nat) r,
    applyDragon env k d updated !! i = Some r
    /\ recordKey r = dragonKey d
    /\ Dragon.count d <= StatRecord.streakLength r.
Proof.
  unfold applyDragon.
  destruct (list_find _ updated) as [[idx existing]|] eqn:Hfind.
  - apply list_find_Some in Hfind as (Hidx & Hkey & _).
    destruct (Z.ltb_spec (StatRecord.streakLength existing) (Dragon.count d))
      as [Hlt|Hge].
    + exists idx, (bumpRecord env k d existing).
      split; [|split; [exact Hkey | simpl; lia]].
      apply list_lookup_insert_eq. now apply lookup_lt_Some in Hidx.
    + exists idx, existing. auto.
  - exists (length updated), (newRecord env k d).
    split; [|split; [reflexivity | simpl; lia]].
    rewrite lookup_app_r by lia. now rewrite Nat.sub_diag.
Qed.

Lemma updateLoop_covers env k ds updated d :
  In d ds ->
  exists (i : nat) r,
    updateLoop env k ds updated !! i = Some r
    /\ recordKey r = dragonKey d
    /\ Dragon.count d <= StatRecord.streakLength r.
Proof.
  revert k updated. induction ds as [|d0 ds IH]; intros k updated Hin; simpl.
  - destruct Hin.
  - destruct Hin as [->|Hin]; [|now apply IH].
    destruct (applyDragon_covers env k d updated) as (i & r & Hi & Hkey & Hlen).
    destruct (updateLoop_advances env (S k) ds _ i r Hi)
      as (r' & Hr' & _ & Hk' & Hl' & _).
    exists i, r'. split; [exact Hr'|]. split; [congruence | lia].
Qed.

(** X9: a tracking run that finds a new fingerprint leaves, for every
    observation it was given, a record with the observation's signature
    and a length of at least the observed one, and asks for exactly one
    save, of the new record list; right after a start request or a
    confirmed clear this holds for every observation list. *)
Theorem tracking_covers env tds bds st :
  isTracking st = true -> isInitializedRef st = true ->
  (fingerprint (tds ++ bds) <> prevDragonsRef st ->
   let st' := trackingEffect env tds bds st in
   (forall d, In d (tds ++ bds) ->
      exists (i : nat) r,
        dragonRecords st' !! i = Some r
        /\ recordKey r = dragonKey d
        /\ Dragon.count d <= StatRecord.streakLength r)
   /\ saveCalls st' = saveCalls st ++ [mkSave (dragonRecords st') true])
  /\ (forall d remoteOk,
        In d (tds ++ bds) ->
        (exists (i : nat) r,
           dragonRecords (trackingEffect env tds bds (handleStartTracking st))
             !! i = Some r
           /\ recordKey r = dragonKey d
           /\ Dragon.count d <= StatRecord.streakLength r)
        /\ exists (i : nat) r,
             dragonRecords
               (trackingEffect env tds bds (handleClearStats true remoteOk st))
               !! i = Some r
             /\ recordKey r = dragonKey d
             /\ Dragon.count d <= StatRecord.streakLength r).
Proof.
  intros Ht Hi.
  assert (Hrun : forall s,
            isTracking s = true -> isInitializedRef s = true ->
            fingerprint (tds ++ bds) <> prevDragonsRef s ->
            trackingEffect env tds bds s
            = {| dragonRecords := updateLoop env 0 (tds ++ bds) (dragonRecords s);
                 isTracking := isTracking s;
                 prevDragonsRef := fingerprint (tds ++ bds);
                 isInitializedRef := isInitializedRef s;
                 saveCalls :=
                   saveCalls s
                   ++ [mkSave (updateLoop env 0 (tds ++ bds) (dragonRecords s))
                         true];
                 clearCalls := clearCalls s |}).
  { intros s Hts His Hfp. unfold trackingEffect. rewrite Hts, His. simpl.
    destruct (String.eqb _ _) eqn:E; [|reflexivity].
    apply String.eqb_eq in E. contradiction. }
  split.
  - intros Hfp st'. subst st'. rewrite (Hrun st Ht Hi Hfp). simpl.
    split; [|reflexivity]. intros d Hd. now apply updateLoop_covers.
  - intros d remoteOk Hd.
    assert (Hfp : fingerprint (tds ++ bds) <> "").
    { intros E. apply fingerprint_empty_inv in E. rewrite E in Hd. destruct Hd. }
    split.
    + rewrite (Hrun (handleStartTracking st)) by (simpl; auto).
      simpl. now apply updateLoop_covers.
    + rewrite (Hrun (handleClearStats true remoteOk st)) by (simpl; auto).
      simpl. now apply updateLoop_covers.
Qed.

Lemma tracking_covers_witness :
  exists (i : nat) r,
    dragonRecords
      (trackingEffect (mkEnv (fun _ => 2000) (fun _ => "zz") (fun _ => 2000))
         [trendInfo (mkRule "r" 1 0 1) 3 9 parity (Streak.mk (Parity ODD) 5)] []
         (handleStartTracking (loadEffect None initialTracker))) !! i = Some r
    /\ 5 <= StatRecord.streakLength r.
Proof.
  destruct (proj1 (tracking_covers
              (mkEnv (fun _ => 2000) (fun _ => "zz") (fun _ => 2000))
              [trendInfo (mkRule "r" 1 0 1) 3 9 parity (Streak.mk (Parity ODD) 5)] []
              (handleStartTracking (loadEffect None initialTracker))
              eq_refl eq_refl)) as [Hcov _].
  - vm_compute. discriminate.
  - destruct (Hcov (trendInfo (mkRule "r" 1 0 1) 3 9 parity
                      (Streak.mk (Parity ODD) 5)))
      as (i & r & Hi & _ & Hlen); [left; reflexivity|].
    exists i, r. split; [exact Hi | exact Hlen].
Defined.

Lemma stepTracker_saveCalls st ev :
  exists new,
    saveCalls (stepTracker st ev) = saveCalls st ++ new
    /\ (length new <= 1)%nat
    /\ Forall (fun p => records p = dragonRecords (stepTracker st ev)
                        /\ savedTracking p = isTracking (stepTracker st ev)) new.
Proof.
  destruct ev as [env tds bds| |]; simpl.
  - unfold trackingEffect.
    destruct (negb (isTracking st) || negb (isInitializedRef st)) eqn:Hg;
      [exists []; rewrite app_nil_r; repeat split; [simpl; lia | constructor]|].
    destruct (String.eqb _ _);
      [exists []; rewrite app_nil_r; repeat split; [simpl; lia | constructor]|].
    simpl. eexists (_ :: nil). split; [reflexivity|]. split; [simpl; lia|].
    constructor; [|constructor]. simpl. split; [reflexivity|].
    apply orb_false_iff in Hg as [Hg _]. now destruct (isTracking st).
  - eexists (_ :: nil). split; [reflexivity|]. split; [simpl; lia|].
    constructor; [|constructor]. simpl. auto.
  - eexists (_ :: nil). split; [reflexivity|]. split; [simpl; lia|].
    constructor; [|constructor]. simpl. auto.
Qed.

Lemma stepTracker_lastSaveCurrent st ev :
  lastSaveCurrent st -> lastSaveCurrent (stepTracker st ev).
Proof.
  intros Hinv. unfold lastSaveCurrent in *. destruct ev as [env tds bds| |]; simpl.
  - unfold trackingEffect.
    destruct (negb (isTracking st) || negb (isInitializedRef st)) eqn:Hg;
      [exact Hinv|].
    destruct (String.eqb _ _); [exact Hinv|].
    simpl. rewrite last_snoc. simpl. split; [reflexivity|].
    apply orb_false_iff in Hg as [Hg _]. now destruct (isTracking st).
  - rewrite last_snoc. simpl. auto.
  - rewrite last_snoc. simpl. auto.
Qed.

(** X10: every request for a save that tracking, start or stop makes
    carries the record list and the tracking flag as they are after that
    handler; so once the last request is current it stays current over any
    sequence of these events, and requests are only ever added. *)
Theorem save_requests_current :
  (forall st ev,
     exists new,
       saveCalls (stepTracker st ev) = saveCalls st ++ new
       /\ (length new <= 1)%nat
       /\ Forall (fun p => records p = dragonRecords (stepTracker st ev)
                           /\ savedTracking p = isTracking (stepTracker st ev))
            new)
  /\ (forall evs st,
        lastSaveCurrent st ->
        lastSaveCurrent (runTracker evs st)
        /\ exists new, saveCalls (runTracker evs st) = saveCalls st ++ new).
Proof.
  split; [exact stepTracker_saveCalls|].
  intros evs. unfold runTracker.
  induction evs as [|ev evs IH]; intros st Hinv; simpl.
  - split; [exact Hinv|]. exists []. now rewrite app_nil_r.
  - destruct (IH (stepTracker st ev)) as [Hlast (new & Hnew)];
      [now apply stepTracker_lastSaveCurrent|].
    split; [exact Hlast|].
    destruct (stepTracker_saveCalls st ev) as (n1 & Hn1 & _).
    exists (n1 ++ new). now rewrite Hnew, Hn1, app_assoc.
Qed.

Lemma save_requests_current_witness :
  lastSaveCurrent
    (runTracker
       [EvStart;
        EvTrack (mkEnv (fun _ => 2000) (fun _ => "zz") (fun _ => 2000))
          [trendInfo (mkRule "r" 1 0 1) 3 9 parity (Streak.mk (Parity ODD) 5)] []]
       (loadEffect None initialTracker)).
Proof.
  apply (proj2 save_requests_current). exact I.
Defined.

(** X11: until the load on mount has resolved no sequence of tracking
    runs, start and stop requests changes the records, and a save that is
    requested then carries the records as they were; and while tracking is
    off, tracking runs change nothing at all. *)
Theorem tracking_gated :
  (forall evs st,
     isInitializedRef st = false ->
     dragonRecords (runTracker evs st) = dragonRecords st
     /\ isInitializedRef (runTracker evs st) = false
     /\ exists new,
          saveCalls (runTracker evs st) = saveCalls st ++ new
          /\ Forall (fun p => records p = dragonRecords st) new)
  /\ (forall evs st,
        isTracking st = false ->
        forallb isTrackEvent evs = true ->
        runTracker evs st = st).
Proof.
  split.
  - intros evs. unfold runTracker.
    induction evs as [|ev evs IH]; intros st Hinit; simpl.
    + split; [reflexivity|]. split; [exact Hinit|].
      exists []. rewrite app_nil_r. split; [reflexivity|constructor].
    + assert (Hstep : dragonRecords (stepTracker st ev) = dragonRecords st
                      /\ isInitializedRef (stepTracker st ev) = false).
      { destruct ev as [env tds bds| |]; simpl; auto.
        unfold trackingEffect. rewrite Hinit, orb_true_r. auto. }
      destruct Hstep as [Hrec Hini].
      destruct (IH _ Hini) as (Hr & Hi & new & Hnew & Hall).
      rewrite Hr, Hrec. split; [reflexivity|]. split; [exact Hi|].
      destruct (stepTracker_saveCalls st ev) as (n1 & Hn1 & _ & Hall1).
      exists (n1 ++ new). rewrite Hnew, Hn1, app_assoc. split; [reflexivity|].
      apply Forall_app. split.
      * eapply List.Forall_impl; [|exact Hall1]. intros p [Hp _]. congruence.
      * eapply List.Forall_impl; [|exact Hall]. intros p Hp. congruence.
  - intros evs. unfold runTracker.
    induction evs as [|ev evs IH]; intros st Hoff Hall; simpl; [reflexivity|].
    simpl in Hall. apply andb_true_iff in Hall as [Hev Hall].
    destruct ev as [env tds bds| |]; try discriminate.
    simpl. unfold trackingEffect. rewrite Hoff. simpl. now apply IH.
Qed.

Lemma tracking_gated_witness :
  dragonRecords
    (runTracker
       [EvStart;
        EvTrack (mkEnv (fun _ => 2000) (fun _ => "zz") (fun _ => 2000))
          [trendInfo (mkRule "r" 1 0 1) 3 9 parity (Streak.mk (Parity ODD) 5)] []]
       initialTracker)
  = [].
Proof.
  exact (proj1 (proj1 tracking_gated
    [EvStart;
     EvTrack (mkEnv (fun _ => 2000) (fun _ => "zz") (fun _ => 2000))
       [trendInfo (mkRule "r" 1 0 1) 3 9 parity (Streak.mk (Parity ODD) 5)] []]
    initialTracker eq_refl)).
Defined.

(** * The debounced save *)

Lemma armAll_last calls timeout :
  armAll calls timeout
  = match last calls with Some p => Some p | None => timeout end.
Proof.
  unfold armAll. revert timeout.
  induction calls as [|c calls IH]; intros timeout; simpl; [reflexivity|].
  rewrite IH, last_cons. unfold debounceCall. now destruct (last calls).
Qed.

Lemma armAll_app c1 c2 timeout :
  armAll (c1 ++ c2) timeout = armAll c2 (armAll c1 timeout).
Proof. unfold armAll. apply foldl_app. Qed.

Lemma runTracker_saveCalls evs st :
  exists new, saveCalls (runTracker evs st) = saveCalls st ++ new.
Proof.
  unfold runTracker. revert st.
  induction evs as [|ev evs IH]; intros st; simpl.
  - exists []. now rewrite app_nil_r.
  - destruct (IH (stepTracker st ev)) as (new & Hnew).
    destruct (stepTracker_saveCalls st ev) as (n1 & Hn1 & _).
    exists (n1 ++ new). now rewrite Hnew, Hn1, app_assoc.
Qed.

Lemma runTracker_lastSaveCurrent evs st :
  lastSaveCurrent st -> lastSaveCurrent (runTracker evs st).
Proof.
  unfold runTracker. revert st.
  induction evs as [|ev evs IH]; intros st Hinv; simpl; [exact Hinv|].
  apply IH. now apply stepTracker_lastSaveCurrent.
Qed.

Lemma newSaveCalls_app st st' new :
  saveCalls st' = saveCalls st ++ new -> newSaveCalls st st' = new.
Proof. intros H. unfold newSaveCalls. rewrite H. apply drop_app_length. Qed.

Lemma runSystem_tracker evs sys :
  runSystem (map SysTracker evs) sys
  = {| component := runTracker evs (component sys);
       saveTimer :=
         armAll (newSaveCalls (component sys) (runTracker evs (component sys)))
           (saveTimer sys);
       requests := requests sys |}.
Proof.
  unfold runSystem, runTracker. revert sys.
  induction evs as [|ev evs IH]; intros sys; simpl.
  - unfold newSaveCalls. rewrite drop_all. now destruct sys.
  - rewrite IH. simpl. f_equal.
    destruct (stepTracker_saveCalls (component sys) ev) as (n1 & Hn1 & _).
    destruct (runTracker_saveCalls evs (stepTracker (component sys) ev))
      as (n2 & Hn2).
    unfold runTracker in Hn2.
    rewrite (newSaveCalls_app _ _ n2 Hn2), (newSaveCalls_app _ _ n1 Hn1).
    rewrite (newSaveCalls_app (component sys) _ (n1 ++ n2))
      by (now rewrite Hn2, Hn1, app_assoc).
    now rewrite armAll_app.
Qed.

(** X12: while tracking, start and stop only request saves, nothing is
    sent; when the timer then runs out, one POST is sent, and if the last
    request was current at the start it carries the record list and the
    tracking flag of that moment, however many saves were requested; the
    timer running out again sends nothing. *)
Theorem debounced_save_coalesces evs sys :
  lastSaveCurrent (component sys) ->
  let sys1 := runSystem (map SysTracker evs) sys in
  let sys2 := stepSystem sys1 SysTimer in
  component sys1 = runTracker evs (component sys)
  /\ requests sys1 = requests sys
  /\ (newSaveCalls (component sys) (component sys1) = [] ->
      saveTimer sys1 = saveTimer sys)
  /\ (newSaveCalls (component sys) (component sys1) <> [] ->
      requests sys2
      = requests sys
        ++ [POST (mkSave (dragonRecords (component sys1))
                    (isTracking (component sys1)))])
  /\ component sys2 = component sys1
  /\ stepSystem sys2 SysTimer = sys2.
Proof.
  intros Hinv sys1 sys2. subst sys2 sys1. rewrite runSystem_tracker. simpl.
  split; [reflexivity|]. split; [reflexivity|].
  destruct (runTracker_saveCalls evs (component sys)) as (new & Hnew).
  rewrite (newSaveCalls_app _ _ new Hnew), armAll_last.
  split; [now intros ->|]. split.
  - intros Hne.
    pose proof (runTracker_lastSaveCurrent evs _ Hinv) as Hcur.
    unfold lastSaveCurrent in Hcur. rewrite Hnew in Hcur.
    destruct (last new) as [p|] eqn:Hlast.
    + rewrite last_app, Hlast in Hcur.
      destruct Hcur as [<- <-]. simpl. now destruct p.
    + apply last_None in Hlast. contradiction.
  - destruct (match last new with Some p => Some p | None => saveTimer sys end);
      simpl; split; reflexivity.
Qed.

Lemma debounced_save_coalesces_witness :
  requests
    (stepSystem
       (runSystem
          (map SysTracker
             [EvStart;
              EvTrack (mkEnv (fun _ => 2000) (fun _ => "zz") (fun _ => 2000))
                [trendInfo (mkRule "r" 1 0 1) 3 9 parity (Streak.mk (Parity ODD) 5)]
                []])
          (mkSystem (loadEffect None initialTracker) None []))
       SysTimer)
  = [POST (mkSave
             [newRecord (mkEnv (fun _ => 2000) (fun _ => "zz") (fun _ => 2000)) 0
                (trendInfo (mkRule "r" 1 0 1) 3 9 parity (Streak.mk (Parity ODD) 5))]
             true)].
Proof.
  apply (proj1 (proj2 (proj2 (proj2
    (debounced_save_coalesces
       [EvStart;
        EvTrack (mkEnv (fun _ => 2000) (fun _ => "zz") (fun _ => 2000))
          [trendInfo (mkRule "r" 1 0 1) 3 9 parity (Streak.mk (Parity ODD) 5)] []]
       (mkSystem (loadEffect None initialTracker) None []) I))))).
  vm_compute. discriminate.
Defined.

(** X13: a confirmed clear sends DELETE and leaves the timer of the
    debounced save armed; when it runs out, the records requested to be
    saved before the clear are POSTed after the DELETE.  So after a
    tracking run that found a new fingerprint of a non-empty list, then a
    clear, then the timer, the component holds no record and the last
    request is a POST of a non-empty record list. *)
Theorem clear_keeps_pending_save :
  (forall sys p remoteOk,
     saveTimer sys = Some p ->
     let sys' := runSystem [SysClear true remoteOk; SysTimer] sys in
     requests sys' = requests sys ++ [DELETE; POST p]
     /\ dragonRecords (component sys') = []
     /\ saveTimer sys' = None)
  /\ (forall env tds bds remoteOk st timeout reqs,
        isTracking st = true -> isInitializedRef st = true ->
        fingerprint (tds ++ bds) <> prevDragonsRef st ->
        tds ++ bds <> [] ->
        let sys' :=
          runSystem
            [SysTracker (EvTrack env tds bds); SysClear true remoteOk; SysTimer]
            (mkSystem st timeout reqs) in
        dragonRecords (component sys') = []
        /\ exists p,
             requests sys' = reqs ++ [DELETE; POST p]
             /\ records p = updateLoop env 0 (tds ++ bds) (dragonRecords st)
             /\ records p <> []).
Proof.
  split.
  - intros sys p remoteOk Hp. simpl. unfold debounceFire. rewrite Hp. simpl.
    rewrite <- app_assoc. auto.
  - intros env tds bds remoteOk st timeout reqs Ht Hi Hfp Hne. simpl.
    unfold trackingEffect. rewrite Ht, Hi. simpl.
    destruct (String.eqb _ _) eqn:E;
      [apply String.eqb_eq in E; contradiction|].
    simpl. unfold newSaveCalls. simpl. rewrite drop_app_length. simpl.
    split; [reflexivity|]. eexists. rewrite <- app_assoc.
    split; [reflexivity|]. simpl. split; [reflexivity|].
    destruct (tds ++ bds) as [|d ds]; [contradiction|].
    destruct (updateLoop_covers env 0 (d :: ds) (dragonRecords st) d
                (or_introl eq_refl)) as (i & r & Hr & _).
    intros Hnil. rewrite Hnil in Hr. discriminate.
Qed.

Lemma clear_keeps_pending_save_witness :
  requests
    (runSystem [SysClear true false; SysTimer]
       (mkSystem initialTracker (Some (mkSave [] true)) []))
  = [DELETE; POST (mkSave [] true)].
Proof.
  exact (proj1 (proj1 clear_keeps_pending_save
                  (mkSystem initialTracker (Some (mkSave [] true)) [])
                  (mkSave [] true) false eq_refl)).
Defined.

(** * Cards and watched patterns *)

Lemma existsb_pointwise_in {A} (f g : A -> bool) (l : list A) :
  (forall x, In x l -> f x = g x) -> existsb f l = existsb g l.
Proof.
  induction l as [|x l IH]; intros H; simpl; [reflexivity|].
  rewrite (H x (or_introl eq_refl)), IH; [reflexivity|].
  intros y Hy. apply H. now right.
Qed.

Lemma followsDragon_of_card d fp :
  bool_decide (Followed.ruleId fp = Dragon.ruleId d)
  && bool_decide (Followed.type fp = Dragon.type d)
  && bool_decide (Followed.mode fp = Dragon.mode d)
  && bool_decide (Followed.rowId fp = Dragon.rowId d) = true ->
  followsDragon d fp = true.
Proof.
  unfold followsDragon. rewrite !andb_true_iff.
  intros [[[H1 H2] H3] H4]. repeat split; try assumption.
  now destruct (Dragon.mode d).
Qed.

(** X14: a card shown as followed belongs to an observation the watched
    list admits; the pattern a click on a card hands up matches that card
    and, once it is among the watched patterns, puts the observation into
    the watched list if it passes the filter; and when no sequence-mode
    pattern carries a row the two tests agree on every observation. *)
Theorem follow_round_trip :
  (forall followedPatterns d,
     cardIsFollowed followedPatterns d = true ->
     isFollowed followedPatterns d = true)
  /\ (forall followedPatterns d,
        cardIsFollowed (handleFollowClick d :: followedPatterns) d = true)
  /\ (forall allBlocks followedPatterns activeFilter rules rule d,
        In rule rules -> In d (ruleObservations allBlocks rule) ->
        matchesFilter activeFilter (Dragon.rawType d) = true ->
        exists out,
          computeDragons allBlocks (handleFollowClick d :: followedPatterns)
            activeFilter rules = Some out
          /\ In d (followedResults out))
  /\ (forall allBlocks followedPatterns rule d,
        In d (ruleObservations allBlocks rule) ->
        Forall (fun fp => Followed.mode fp = trend -> Followed.rowId fp = None)
          followedPatterns ->
        cardIsFollowed followedPatterns d = isFollowed followedPatterns d).
Proof.
  assert (Hself : forall followedPatterns d,
            cardIsFollowed (handleFollowClick d :: followedPatterns) d = true).
  { intros fps d. unfold cardIsFollowed. simpl.
    now rewrite !bool_decide_eq_true_2 by reflexivity. }
  assert (Himp : forall followedPatterns d,
            cardIsFollowed followedPatterns d = true ->
            isFollowed followedPatterns d = true).
  { intros fps d. unfold cardIsFollowed, isFollowed. rewrite !existsb_exists.
    intros (fp & Hin & H). exists fp. split; [exact Hin|].
    now apply followsDragon_of_card. }
  split; [exact Himp|]. split; [exact Hself|]. split.
  - intros allBlocks fps af rules rule d Hrule Hd Hm.
    rewrite computeDragons_spec. eexists. split; [reflexivity|]. simpl.
    rewrite sortDesc_In, filter_In. split.
    + eapply ruleObservations_in_all; eassumption.
    + unfold admitWatch. rewrite Hm, andb_true_r. apply Himp, Hself.
  - intros allBlocks fps rule d Hd Hall.
    apply ruleObservations_fields in Hd as (_ & _ & Hmode).
    unfold cardIsFollowed, isFollowed. apply existsb_pointwise_in.
    intros fp Hfp. rewrite List.Forall_forall in Hall. specialize (Hall fp Hfp).
    unfold followsDragon.
    destruct (Dragon.mode d) eqn:Hm; [|reflexivity].
    rewrite Hmode.
    destruct (bool_decide (Followed.mode fp = trend)) eqn:Hfm;
      [|now rewrite !andb_false_r].
    apply bool_decide_eq_true in Hfm. rewrite (Hall Hfm).
    now rewrite (bool_decide_eq_true_2 (None = None)) by reflexivity.
Qed.

Lemma follow_round_trip_witness :
  exists out,
    computeDragons [blk 3 ODD BIG; blk 2 ODD BIG; blk 1 ODD SMALL]
      [handleFollowClick
         (trendInfo (mkRule "r" 1 0 1) 3 4 parity (Streak.mk (Parity ODD) 3))]
      ALL [mkRule "r" 1 0 1] = Some out
    /\ In (trendInfo (mkRule "r" 1 0 1) 3 4 parity (Streak.mk (Parity ODD) 3))
         (followedResults out).
Proof.
  apply (proj1 (proj2 (proj2 follow_round_trip))
           [blk 3 ODD BIG; blk 2 ODD BIG; blk 1 ODD SMALL] [] ALL
           [mkRule "r" 1 0 1] (mkRule "r" 1 0 1)).
  - left. reflexivity.
  - left. reflexivity.
  - reflexivity.
Defined.

(** * The statistics panel *)

Lemma countIf_nil {A} (p : A -> bool) : countIf p [] = 0.
Proof. reflexivity. Qed.

Lemma countIf_cons {A} (p : A -> bool) x l :
  countIf p (x :: l) = (if p x then 1 else 0) + countIf p l.
Proof. unfold countIf. simpl. destruct (p x); simpl; lia. Qed.

Lemma countIf_nonneg {A} (p : A -> bool) l : 0 <= countIf p l.
Proof. unfold countIf. lia. Qed.

Lemma countIf_zero {A} (p : A -> bool) l :
  countIf p l = 0 <-> forall x, In x l -> p x = false.
Proof.
  rewrite filter_none. unfold countIf.
  destruct (List.filter p l); simpl; split; intros H; try reflexivity;
    try discriminate; lia.
Qed.

Lemma rawCount_bumpRaw c c' n :
  rawCount c (bumpRaw c' n)
  = rawCount c n + (if bool_decide (c' = c) then 1 else 0).
Proof. destruct c as [[]|[]], c' as [[]|[]]; simpl; lia. Qed.

Lemma bumpRaw_sum c n :
  cODD (bumpRaw c n) + cEVEN (bumpRaw c n) + cBIG (bumpRaw c n)
  + cSMALL (bumpRaw c n)
  = cODD n + cEVEN n + cBIG n + cSMALL n + 1.
Proof. destruct c as [[]|[]]; simpl; lia. Qed.

Lemma bumpMode_counts m n :
  cTrend (bumpMode m n) = cTrend n + (if bool_decide (m = trend) then 1 else 0)
  /\ cBead (bumpMode m n) = cBead n + (if bool_decide (m = bead) then 1 else 0).
Proof. destruct m; simpl; split; lia. Qed.

Lemma jsOr_Some_0 v : jsOr (Some v) 0 = v.
Proof. unfold jsOr. destruct (Z.eqb_spec v 0); congruence. Qed.

Lemma shownCount_bumpStreak k k' m :
  shownCount (bumpStreak k' m) k
  = shownCount m k + (if bool_decide (k' = k) then 1 else 0).
Proof.
  unfold shownCount, bumpStreak. case_bool_decide as Hk.
  - subst k'. now rewrite lookup_insert_eq, jsOr_Some_0.
  - rewrite lookup_insert_ne by exact Hk. lia.
Qed.

Lemma bumpStreak_None k k' m :
  bumpStreak k' m !! k = None <-> m !! k = None /\ k' <> k.
Proof.
  unfold bumpStreak. destruct (decide (k' = k)) as [->|Hne].
  - rewrite lookup_insert_eq. split; [discriminate | tauto].
  - rewrite lookup_insert_ne by exact Hne. tauto.
Qed.

Lemma statsStep_None rec acc :
  statsStep rec acc = None <-> protoKey (StatRecord.ruleId rec) = true.
Proof.
  unfold statsStep. destruct (protoKey _); split; congruence.
Qed.

Lemma statsLoop_None recs acc :
  forEachM statsStep recs acc = None <->
  exists r, In r recs /\ protoKey (StatRecord.ruleId r) = true.
Proof.
  revert acc. induction recs as [|r recs IH]; intros acc; simpl.
  - split; [discriminate | intros (? & [] & _)].
  - destruct (statsStep r acc) as [acc'|] eqn:Hstep; simpl.
    + rewrite IH. split.
      * intros (x & Hx & Hp). eauto.
      * intros (x & [<-|Hx] & Hp); [|eauto].
        apply (statsStep_None r acc) in Hp. rewrite Hp in Hstep. discriminate.
    + split; [|reflexivity]. intros _. exists r.
      split; [now left | now apply (statsStep_None r acc)].
Qed.

(** What the loop adds to the counters it starts from. *)
Lemma statsLoop_counts recs acc s :
  forEachM statsStep recs acc = Some s ->
  (forall c,
     rawCount c (byRawType s)
     = rawCount c (byRawType acc)
       + countIf (fun r => bool_decide (StatRecord.rawType r = c)) recs)
  /\ cODD (byRawType s) + cEVEN (byRawType s) + cBIG (byRawType s)
     + cSMALL (byRawType s)
     = cODD (byRawType acc) + cEVEN (byRawType acc) + cBIG (byRawType acc)
       + cSMALL (byRawType acc) + Z.of_nat (length recs)
  /\ cTrend (byMode s)
     = cTrend (byMode acc)
       + countIf (fun r => bool_decide (StatRecord.mode r = trend)) recs
  /\ cBead (byMode s)
     = cBead (byMode acc)
       + countIf (fun r => bool_decide (StatRecord.mode r = bead)) recs
  /\ (forall k,
        shownCount (byStreak s) k
        = shownCount (byStreak acc) k
          + countIf
              (fun r =>
                 bool_decide (streakKeyOf (StatRecord.streakLength r) = k))
              recs)
  /\ (forall k,
        byStreak s !! k = None <->
        byStreak acc !! k = None
        /\ countIf
             (fun r => bool_decide (streakKeyOf (StatRecord.streakLength r) = k))
             recs = 0).
Proof.
  revert acc. induction recs as [|r recs IH]; intros acc Hs; simpl in Hs.
  - injection Hs as <-. rewrite !countIf_nil. simpl.
    repeat split; intros; rewrite ?countIf_nil; try lia; intuition.
  - destruct (statsStep r acc) as [acc'|] eqn:Hstep; [|discriminate].
    simpl in Hs. destruct (IH acc' Hs) as (Hraw & Hsum & Ht & Hb & Hk & Hn).
    unfold statsStep in Hstep.
    destruct (protoKey _); [discriminate|]. injection Hstep as <-.
    simpl in *. rewrite !countIf_cons.
    destruct (bumpMode_counts (StatRecord.mode r) (byMode acc)) as [Em Eb].
    split; [|split; [|split; [|split; [|split]]]].
    + intros c. rewrite countIf_cons, Hraw, rawCount_bumpRaw. lia.
    + rewrite Hsum, bumpRaw_sum. lia.
    + rewrite Ht, Em. lia.
    + rewrite Hb, Eb. lia.
    + intros k. rewrite countIf_cons, Hk, shownCount_bumpStreak. lia.
    + intros k. rewrite countIf_cons, Hn, bumpStreak_None.
      pose proof (countIf_nonneg
                    (fun r => bool_decide
                                (streakKeyOf (StatRecord.streakLength r) = k))
                    recs).
      destruct (bool_decide_reflect
                  (streakKeyOf (StatRecord.streakLength r) = k)) as [Hkk|Hkk].
      * split; [intros [[_ Hne] _]; contradiction | intros [_ Hz]; lia].
      * split.
        -- intros [[Ha _] Hz]. split; [exact Ha | lia].
        -- intros [Ha Hz]. split; [split; [exact Ha | exact Hkk] | lia].
Qed.

Lemma mode_counts_total (recs : list DragonStatRecord) :
  countIf (fun r => bool_decide (StatRecord.mode r = trend)) recs
  + countIf (fun r => bool_decide (StatRecord.mode r = bead)) recs
  = Z.of_nat (length recs).
Proof.
  induction recs as [|r recs IH]; [reflexivity|].
  rewrite !countIf_cons. simpl length. destruct (StatRecord.mode r); simpl; lia.
Qed.

(** The bucket of a length, read back. *)
Lemma pretty_not_bucket (n : Z) : n < 10 -> pretty n <> "10+".
Proof.
  intros Hn. destruct (Z_lt_le_dec n 0) as [Hneg|Hpos].
  - destruct n as [|p|p]; try lia. discriminate.
  - remember (Z.to_nat n) as k eqn:Hk.
    replace n with (Z.of_nat k) by lia.
    do 10 (destruct k as [|k]; [discriminate|]). lia.
Qed.

Lemma streakKeyOf_bucket len : streakKeyOf len = "10+" <-> 10 <= len.
Proof.
  unfold streakKeyOf. destruct (Z.leb_spec 10 len) as [H|H]; [tauto|].
  split; [|lia]. intros E. now apply pretty_not_bucket in E.
Qed.

Lemma streakKeyOf_exact len n :
  n < 10 -> streakKeyOf len = pretty n <-> len = n.
Proof.
  intros Hn. unfold streakKeyOf. destruct (Z.leb_spec 10 len) as [H|H].
  - split; [|lia]. intros E. symmetry in E. now apply pretty_not_bucket in E.
  - split; [apply (inj pretty) | now intros ->].
Qed.

Lemma statsData_cases recs :
  match statsData recs with
  | StatsNull => recs = []
  | StatsThrows =>
      recs <> [] /\ forEachM statsStep recs initStats = None
  | StatsData s =>
      recs <> []
      /\ exists s0,
           forEachM statsStep recs initStats = Some s0
           /\ byRawType s = byRawType s0 /\ byMode s = byMode s0
           /\ byStreak s = byStreak s0 /\ byRule s = byRule s0
           /\ total s = Z.of_nat (length recs)
  end.
Proof.
  unfold statsData. destruct recs as [|r recs]; [reflexivity|].
  destruct (forEachM statsStep (r :: recs) initStats) as [s0|] eqn:Hs.
  - split; [discriminate|]. exists s0. simpl. auto 10.
  - split; [discriminate | reflexivity].
Qed.

(** X15: the panel's data is [null] exactly for an empty record list; the
    computation throws exactly when some record's rule identifier is a
    name that every object inherits ("constructor", "toString", ...); in
    every other case it yields the aggregates. *)
Theorem stats_null_or_throws recs :
  (statsData recs = StatsNull <-> recs = [])
  /\ (statsData recs = StatsThrows <->
      exists r, In r recs /\ protoKey (StatRecord.ruleId r) = true)
  /\ ((exists s, statsData recs = StatsData s) <->
      recs <> []
      /\ forall r, In r recs -> protoKey (StatRecord.ruleId r) = false).
Proof.
  pose proof (statsData_cases recs) as Hc.
  pose proof (statsLoop_None recs initStats) as Hnone.
  destruct (statsData recs) as [| |s].
  - destruct Hc as [Hne Hthrow]. apply Hnone in Hthrow.
    split; [split; [discriminate | contradiction]|].
    split; [tauto|]. split; [intros [s Hs]; discriminate|].
    intros [_ Hall]. destruct Hthrow as (r & Hr & Hp).
    rewrite (Hall r Hr) in Hp. discriminate.
  - subst recs. split; [tauto|]. split.
    + split; [discriminate | intros (r & [] & _)].
    + split; [intros [s Hs]; discriminate | intros [Hne _]; contradiction].
  - destruct Hc as [Hne (s0 & Hs0 & _)].
    assert (Hall : forall r, In r recs -> protoKey (StatRecord.ruleId r) = false).
    { intros r Hr. destruct (protoKey (StatRecord.ruleId r)) eqn:Hp; [|reflexivity].
      assert (Hex : exists r, In r recs /\ protoKey (StatRecord.ruleId r) = true)
        by eauto.
      apply Hnone in Hex. congruence. }
    split; [split; [discriminate | contradiction]|]. split.
    + split; [discriminate|]. intros (r & Hr & Hp).
      rewrite (Hall r Hr) in Hp. discriminate.
    + split; [auto | eauto].
Qed.

(** X16: in the aggregates, [total] is the number of records; the four
    class counters and the two mode counters count the records of that
    class and mode and each group sums to [total]; a length bucket holds
    the number of records with that bucket name and is absent when there
    is none; the bucket "10+" counts the records of length ten or more and
    the bucket of a number below ten the records of exactly that length. *)
Theorem stats_counts recs s :
  statsData recs = StatsData s ->
  total s = Z.of_nat (length recs)
  /\ (forall c,
        rawCount c (byRawType s)
        = countIf (fun r => bool_decide (StatRecord.rawType r = c)) recs)
  /\ cODD (byRawType s) + cEVEN (byRawType s) + cBIG (byRawType s)
     + cSMALL (byRawType s) = total s
  /\ cTrend (byMode s)
     = countIf (fun r => bool_decide (StatRecord.mode r = trend)) recs
  /\ cBead (byMode s)
     = countIf (fun r => bool_decide (StatRecord.mode r = bead)) recs
  /\ cTrend (byMode s) + cBead (byMode s) = total s
  /\ (forall k,
        shownCount (byStreak s) k
        = countIf
            (fun r => bool_decide (streakKeyOf (StatRecord.streakLength r) = k))
            recs
        /\ (byStreak s !! k = None <-> shownCount (byStreak s) k = 0))
  /\ shownCount (byStreak s) "10+"
     = countIf (fun r => 10 <=? StatRecord.streakLength r) recs
  /\ (forall n,
        n < 10 ->
        shownCount (byStreak s) (pretty n)
        = countIf (fun r => StatRecord.streakLength r =? n) recs).
Proof.
  intros Hs. pose proof (statsData_cases recs) as Hc. rewrite Hs in Hc.
  destruct Hc as [_ (s0 & Hs0 & -> & -> & -> & _ & Htot)].
  destruct (statsLoop_counts recs initStats s0 Hs0)
    as (Hraw & Hsum & Ht & Hb & Hk & Hn).
  simpl in Hsum, Ht, Hb.
  assert (Hk' : forall k,
            shownCount (byStreak s0) k
            = countIf
                (fun r => bool_decide
                            (streakKeyOf (StatRecord.streakLength r) = k)) recs).
  { intros k. rewrite Hk. unfold shownCount. simpl. rewrite lookup_empty.
    simpl. lia. }
  split; [exact Htot|]. split.
  { intros c. rewrite Hraw. destruct c as [[]|[]]; simpl; lia. }
  split; [lia|]. split; [lia|]. split; [lia|]. split.
  { rewrite Ht, Hb, Htot. apply mode_counts_total. }
  split.
  { intros k. split; [apply Hk'|]. rewrite Hn, Hk'. simpl.
    rewrite lookup_empty. tauto. }
  split.
  - rewrite Hk'. unfold countIf. do 2 f_equal. apply List.filter_ext.
    intros r. apply eq_true_iff_eq.
    now rewrite bool_decide_eq_true, streakKeyOf_bucket, Z.leb_le.
  - intros n Hlt. rewrite Hk'. unfold countIf. do 2 f_equal.
    apply List.filter_ext. intros r. apply eq_true_iff_eq.
    now rewrite bool_decide_eq_true, streakKeyOf_exact, Z.eqb_eq.
Qed.

Lemma stats_counts_witness :
  exists s,
    statsData
      [StatRecord.mk "a" 1 "r" "one" parity trend (Parity ODD) 12 None;
       StatRecord.mk "b" 2 "r" "one" size bead (Size BIG) 4 (Some 2)]
    = StatsData s
    /\ total s = 2 /\ shownCount (byStreak s) "10+" = 1.
Proof.
  eexists. split; [reflexivity|].
  pose proof (stats_counts
    [StatRecord.mk "a" 1 "r" "one" parity trend (Parity ODD) 12 None;
     StatRecord.mk "b" 2 "r" "one" size bead (Size BIG) 4 (Some 2)]
    _ eq_refl) as (Htot & _ & _ & _ & _ & _ & _ & Hten & _).
  split; [exact Htot | exact Hten].
Defined.

Lemma recordsOfRule_cons id r recs :
  recordsOfRule id (r :: recs)
  = if bool_decide (StatRecord.ruleId r = id)
    then r :: recordsOfRule id recs else recordsOfRule id recs.
Proof. reflexivity. Qed.

Lemma statsLoop_byRule recs acc s id :
  forEachM statsStep recs acc = Some s ->
  byRule s !! id = foldl stepRule (byRule acc !! id) (recordsOfRule id recs).
Proof.
  revert acc. induction recs as [|r recs IH]; intros acc Hs; simpl in Hs.
  - now injection Hs as <-.
  - destruct (statsStep r acc) as [acc'|] eqn:Hstep; [|discriminate].
    simpl in Hs. rewrite (IH acc' Hs), recordsOfRule_cons.
    unfold statsStep in Hstep.
    destruct (protoKey _); [discriminate|]. injection Hstep as <-. simpl.
    case_bool_decide as Hid.
    + subst id. now rewrite lookup_insert_eq.
    + now rewrite lookup_insert_ne.
Qed.

Lemma foldl_stepRule_Some rs l :
  foldl stepRule (Some rs) l
  = Some (foldl (fun rs rec => bumpRuleStats rec rs) rs l).
Proof.
  revert rs. induction l as [|r l IH]; intros rs; simpl; [reflexivity|].
  unfold stepRule at 2. apply IH.
Qed.

Lemma foldl_stepRule_None l : foldl stepRule None l = ruleStatsOf l.
Proof.
  destruct l as [|r l]; [reflexivity|]. simpl.
  unfold stepRule at 2. apply foldl_stepRule_Some.
Qed.

(** The loop over the records of one rule and the fold of its entry stay
    in step. *)
Lemma statsLoop_ruleFold l acc g rs :
  forEachM statsStep l acc = Some g ->
  byRawType acc = rsByRawType rs -> byMode acc = rsMode rs ->
  byStreak acc = rsByStreak rs ->
  let rs' := foldl (fun rs rec => bumpRuleStats rec rs) rs l in
  byRawType g = rsByRawType rs' /\ byMode g = rsMode rs'
  /\ byStreak g = rsByStreak rs'
  /\ rsTotal rs' = rsTotal rs + Z.of_nat (length l)
  /\ rsRuleName rs' = rsRuleName rs.
Proof.
  revert acc rs. induction l as [|r l IH]; intros acc rs Hg H1 H2 H3; simpl in *.
  - injection Hg as <-. repeat split; try assumption. lia.
  - destruct (statsStep r acc) as [acc'|] eqn:Hstep; [|discriminate].
    simpl in Hg. unfold statsStep in Hstep.
    destruct (protoKey _); [discriminate|]. injection Hstep as <-.
    destruct (IH _ (bumpRuleStats r rs) Hg) as (E1 & E2 & E3 & E4 & E5);
      simpl; try congruence.
    repeat split; try assumption. simpl in E4. lia.
Qed.

Lemma recordsOfRule_In id recs r :
  In r (recordsOfRule id recs) <-> In r recs /\ StatRecord.ruleId r = id.
Proof.
  unfold recordsOfRule. now rewrite filter_In, bool_decide_eq_true.
Qed.

(** X17: the entry of a rule in [byRule] is absent exactly when no record
    has that rule identifier; otherwise it carries the rule name of the
    first such record, and its total, mode counters, class counters and
    length buckets are those the whole computation gives for the records
    of that rule alone. *)
Theorem stats_by_rule recs s id :
  statsData recs = StatsData s ->
  byRule s !! id = ruleStatsOf (recordsOfRule id recs)
  /\ (byRule s !! id = None <->
      forall r, In r recs -> StatRecord.ruleId r <> id)
  /\ forall rs,
       byRule s !! id = Some rs ->
       exists r0 rest g,
         recordsOfRule id recs = r0 :: rest
         /\ rsRuleName rs = StatRecord.ruleName r0
         /\ statsData (recordsOfRule id recs) = StatsData g
         /\ rsTotal rs = total g
         /\ rsMode rs = byMode g
         /\ rsByRawType rs = byRawType g
         /\ rsByStreak rs = byStreak g.
Proof.
  intros Hs. pose proof (statsData_cases recs) as Hc. rewrite Hs in Hc.
  destruct Hc as [_ (s0 & Hs0 & _ & _ & _ & -> & _)].
  assert (Hrule : byRule s0 !! id = ruleStatsOf (recordsOfRule id recs)).
  { rewrite (statsLoop_byRule recs initStats s0 id Hs0). simpl.
    rewrite lookup_empty. apply foldl_stepRule_None. }
  assert (Hok : forall r, In r recs -> protoKey (StatRecord.ruleId r) = false).
  { intros r Hr. destruct (protoKey (StatRecord.ruleId r)) eqn:Hp; [|reflexivity].
    assert (Hex : exists r, In r recs /\ protoKey (StatRecord.ruleId r) = true)
      by eauto.
    apply (statsLoop_None recs initStats) in Hex. congruence. }
  split; [exact Hrule|]. split.
  - rewrite Hrule. unfold ruleStatsOf.
    destruct (recordsOfRule id recs) as [|r0 rest] eqn:Hsub.
    + split; [|reflexivity]. intros _ r Hr Hid.
      assert (Hin : In r (recordsOfRule id recs))
        by (apply recordsOfRule_In; auto).
      rewrite Hsub in Hin. destruct Hin.
    + split; [discriminate|]. intros Hnone.
      assert (Hin : In r0 (recordsOfRule id recs)) by (rewrite Hsub; now left).
      apply recordsOfRule_In in Hin as [Hin Hid]. now destruct (Hnone r0 Hin).
  - intros rs Hrs. rewrite Hrule in Hrs. unfold ruleStatsOf in Hrs.
    destruct (recordsOfRule id recs) as [|r0 rest] eqn:Hsub; [discriminate|].
    injection Hrs as <-.
    destruct (forEachM statsStep (r0 :: rest) initStats) as [g0|] eqn:Hg.
    + destruct (statsLoop_ruleFold (r0 :: rest) initStats g0
                  (initRuleStats (StatRecord.ruleName r0)) Hg eq_refl eq_refl
                  eq_refl) as (E1 & E2 & E3 & E4 & E5).
      exists r0, rest. eexists. split; [reflexivity|]. split; [exact E5|].
      split; [unfold statsData; rewrite Hg; reflexivity|]. simpl.
      split; [simpl in E4; lia|]. auto.
    + apply statsLoop_None in Hg as (r & Hr & Hp).
      rewrite <- Hsub in Hr. apply recordsOfRule_In in Hr as [Hr _].
      rewrite (Hok r Hr) in Hp. discriminate.
Qed.

Lemma stats_by_rule_witness :
  exists s,
    statsData
      [StatRecord.mk "a" 1 "r" "one" parity trend (Parity ODD) 12 None;
       StatRecord.mk "b" 2 "q" "two" size bead (Size BIG) 4 (Some 2)]
    = StatsData s
    /\ byRule s !! "x" = None.
Proof.
  eexists. split; [reflexivity|].
  apply (proj1 (proj2 (stats_by_rule
    [StatRecord.mk "a" 1 "r" "one" parity trend (Parity ODD) 12 None;
     StatRecord.mk "b" 2 "q" "two" size bead (Size BIG) 4 (Some 2)]
    _ "x" eq_refl))).
  intros r [<-|[<-|[]]]; discriminate.
Defined.

Lemma shown_indicator len :
  foldr Z.add 0
    (map (fun k => if bool_decide (streakKeyOf len = k) then 1 else 0)
       streakKeys)
  = if 3 <=? len then 1 else 0.
Proof.
  unfold streakKeys. cbn [map foldr].
  change "3" with (pretty 3). change "4" with (pretty 4).
  change "5" with (pretty 5). change "6" with (pretty 6).
  change "7" with (pretty 7). change "8" with (pretty 8).
  change "9" with (pretty 9).
  rewrite !(bool_decide_ext _ _ (streakKeyOf_exact len 3 ltac:(lia))).
  rewrite !(bool_decide_ext _ _ (streakKeyOf_exact len 4 ltac:(lia))).
  rewrite !(bool_decide_ext _ _ (streakKeyOf_exact len 5 ltac:(lia))).
  rewrite !(bool_decide_ext _ _ (streakKeyOf_exact len 6 ltac:(lia))).
  rewrite !(bool_decide_ext _ _ (streakKeyOf_exact len 7 ltac:(lia))).
  rewrite !(bool_decide_ext _ _ (streakKeyOf_exact len 8 ltac:(lia))).
  rewrite !(bool_decide_ext _ _ (streakKeyOf_exact len 9 ltac:(lia))).
  rewrite (bool_decide_ext _ _ (streakKeyOf_bucket len)).
  destruct (Z.leb_spec 3 len); repeat case_bool_decide; lia.
Qed.

Lemma shownTotal_long recs s :
  statsData recs = StatsData s ->
  shownTotal (byStreak s)
  = countIf (fun r => 3 <=? StatRecord.streakLength r) recs.
Proof.
  intros Hs. pose proof (statsData_cases recs) as Hc. rewrite Hs in Hc.
  destruct Hc as [_ (s0 & Hs0 & _ & _ & -> & _ & _)].
  destruct (statsLoop_counts recs initStats s0 Hs0) as (_ & _ & _ & _ & Hk & _).
  unfold shownTotal.
  assert (E : map (shownCount (byStreak s0)) streakKeys
              = map (fun k =>
                       countIf
                         (fun r => bool_decide
                                     (streakKeyOf (StatRecord.streakLength r)
                                      = k)) recs) streakKeys).
  { apply map_ext. intros k. rewrite Hk. unfold shownCount. simpl.
    rewrite lookup_empty. simpl. lia. }
  rewrite E. clear.
  induction recs as [|r recs IH].
  - reflexivity.
  - rewrite countIf_cons, <- IH, <- (shown_indicator (StatRecord.streakLength r)).
    unfold streakKeys. cbn [map foldr]. rewrite !countIf_cons. lia.
Qed.

Lemma long_short_total (recs : list DragonStatRecord) :
  countIf (fun r => 3 <=? StatRecord.streakLength r) recs
  + countIf (fun r => StatRecord.streakLength r <? 3) recs
  = Z.of_nat (length recs).
Proof.
  induction recs as [|r recs IH]; [reflexivity|].
  rewrite !countIf_cons. simpl length.
  destruct (Z.leb_spec 3 (StatRecord.streakLength r)),
           (Z.ltb_spec (StatRecord.streakLength r) 3); lia.
Qed.

(** X18: the eight length buckets the panel shows, "3" to "9" and "10+",
    add up to the number of records of length three or more: a record
    shorter than three is counted in [total] and shown in no bucket. *)
Theorem shown_buckets recs s :
  statsData recs = StatsData s ->
  shownTotal (byStreak s)
  = countIf (fun r => 3 <=? StatRecord.streakLength r) recs
  /\ total s - shownTotal (byStreak s)
     = countIf (fun r => StatRecord.streakLength r <? 3) recs.
Proof.
  intros Hs. pose proof (shownTotal_long recs s Hs) as Hlong.
  split; [exact Hlong|].
  pose proof (statsData_cases recs) as Hc. rewrite Hs in Hc.
  destruct Hc as [_ (s0 & _ & _ & _ & _ & _ & Htot)].
  pose proof (long_short_total recs) as Hsum.
  rewrite Hlong, Htot. lia.
Qed.

Lemma shown_buckets_witness :
  exists s,
    statsData
      [StatRecord.mk "a" 1 "r" "one" parity trend (Parity ODD) 2 None;
       StatRecord.mk "b" 2 "r" "one" size bead (Size BIG) 4 (Some 2)]
    = StatsData s
    /\ shownTotal (byStreak s) = 1.
Proof.
  eexists. split; [reflexivity|].
  exact (proj1 (shown_buckets
    [StatRecord.mk "a" 1 "r" "one" parity trend (Parity ODD) 2 None;
     StatRecord.mk "b" 2 "r" "one" size bead (Size BIG) 4 (Some 2)]
    _ eq_refl)).
Defined.

(** * From tracking to the panel, and across a reload *)

Lemma applyDragon_floor m env k d updated :
  m <= Dragon.count d ->
  Forall (fun r => m <= StatRecord.streakLength r) updated ->
  Forall (fun r => m <= StatRecord.streakLength r) (applyDragon env k d updated).
Proof.
  intros Hd Hall. unfold applyDragon.
  destruct (list_find _ updated) as [[idx existing]|].
  - destruct (_ <? _); [|exact Hall].
    apply Forall_insert; [exact Hall | exact Hd].
  - apply Forall_app. split; [exact Hall|]. constructor; [exact Hd | constructor].
Qed.

Lemma updateLoop_floor m env k ds updated :
  (forall d, In d ds -> m <= Dragon.count d) ->
  Forall (fun r => m <= StatRecord.streakLength r) updated ->
  Forall (fun r => m <= StatRecord.streakLength r) (updateLoop env k ds updated).
Proof.
  revert k updated. induction ds as [|d ds IH]; intros k updated Hds Hall; simpl.
  - exact Hall.
  - apply IH; [intros; apply Hds; now right|].
    apply applyDragon_floor; [apply Hds; now left | exact Hall].
Qed.

(** X19: when every rule has a threshold of at least [m] and every stored
    record a length of at least [m], the records after an evaluation have
    lengths of at least [m] again; with [m >= 3] the buckets the panel
    shows then add up to its total. *)
Theorem tracked_lengths_reach_threshold m env allBlocks rules followedPatterns
  activeFilter st :
  (forall rule, In rule rules -> m <= thresholdOf rule) ->
  Forall (fun r => m <= StatRecord.streakLength r) (dragonRecords st) ->
  let st' := evaluate env allBlocks rules followedPatterns activeFilter st in
  Forall (fun r => m <= StatRecord.streakLength r) (dragonRecords st')
  /\ (3 <= m ->
      forall s, statsData (dragonRecords st') = StatsData s ->
        shownTotal (byStreak s) = total s).
Proof.
  intros Hthr Hall st'.
  assert (Hfloor : Forall (fun r => m <= StatRecord.streakLength r)
                     (dragonRecords st')).
  { subst st'. unfold evaluate. rewrite computeDragons_spec. simpl.
    unfold trackingEffect.
    destruct (_ || _); [exact Hall|]. destruct (String.eqb _ _); [exact Hall|].
    simpl. apply updateLoop_floor; [|exact Hall].
    intros d Hd. rewrite in_app_iff, !sortDesc_In, !filter_In in Hd.
    assert (Hobs : In d (allObservations allBlocks rules)
                   /\ admitMain activeFilter d = true).
    { rewrite !andb_true_iff in Hd. tauto. }
    destruct Hobs as [Hobs Hadm]. unfold allObservations in Hobs.
    apply in_flat_map in Hobs as (rule & Hrule & Hobs).
    apply ruleObservations_fields in Hobs as (_ & Ht & _).
    apply admitMain_spec in Hadm as [Hadm _].
    specialize (Hthr rule Hrule). lia. }
  split; [exact Hfloor|]. intros Hm s Hs.
  pose proof (shownTotal_long _ _ Hs) as Hlong.
  pose proof (long_short_total (dragonRecords st')) as Hsum.
  pose proof (statsData_cases (dragonRecords st')) as Hc. rewrite Hs in Hc.
  destruct Hc as [_ (s0 & _ & _ & _ & _ & _ & Htot)].
  assert (Hz : countIf (fun r => StatRecord.streakLength r <? 3)
                 (dragonRecords st') = 0).
  { apply countIf_zero. intros r Hr. rewrite List.Forall_forall in Hfloor.
    specialize (Hfloor r Hr). apply Z.ltb_ge. lia. }
  lia.
Qed.

Lemma tracked_lengths_reach_threshold_witness :
  Forall (fun r => 3 <= StatRecord.streakLength r)
    (dragonRecords
       (evaluate (mkEnv (fun _ => 2000) (fun _ => "zz") (fun _ => 2000))
          [blk 3 ODD BIG; blk 2 ODD BIG; blk 1 ODD SMALL] [mkRule "r" 1 0 1] []
          ALL (handleStartTracking (loadEffect None initialTracker)))).
Proof.
  apply (tracked_lengths_reach_threshold 3).
  - intros rule [<-|[]]. vm_compute. discriminate.
  - constructor.
Defined.

(** X20: whatever the load request comes back with, the mount effect
    leaves the component initialised and requests no save; the records
    change only when a successful answer carries a list, and tracking is
    switched on, never off.  On a fresh component the stored body of a
    POST brings back the record list and the tracking flag that were
    saved; so after the debounced save has been sent, a reload from a
    backend that stores bodies as they are restores the records and the
    flag the component had. *)
Theorem save_load_round_trip :
  (forall resp st,
     let st' := mountEffect resp st in
     isInitializedRef st' = true
     /\ saveCalls st' = saveCalls st
     /\ prevDragonsRef st' = prevDragonsRef st
     /\ (dragonRecords st' <> dragonRecords st ->
         exists recs t,
           resp = LoadJson true (Some (Some recs, t)) /\ dragonRecords st' = recs)
     /\ (isTracking st = true -> isTracking st' = true))
  /\ (forall body,
        dragonRecords (mountEffect (storedAnswer body) initialTracker)
        = records body
        /\ isTracking (mountEffect (storedAnswer body) initialTracker)
           = savedTracking body)
  /\ (forall evs sys body,
        lastSaveCurrent (component sys) ->
        let sys1 := runSystem (map SysTracker evs) sys in
        last (requests (stepSystem sys1 SysTimer)) = Some (POST body) ->
        newSaveCalls (component sys) (component sys1) <> [] ->
        dragonRecords (mountEffect (storedAnswer body) initialTracker)
        = dragonRecords (component sys1)
        /\ isTracking (mountEffect (storedAnswer body) initialTracker)
           = isTracking (component sys1)).
Proof.
  assert (Hback : forall body,
            dragonRecords (mountEffect (storedAnswer body) initialTracker)
            = records body
            /\ isTracking (mountEffect (storedAnswer body) initialTracker)
               = savedTracking body).
  { intros [recs t]. simpl. split; [reflexivity | now destruct t]. }
  split; [|split; [exact Hback|]].
  - intros resp st. simpl.
    split; [reflexivity|]. split; [reflexivity|]. split; [reflexivity|]. split.
    + destruct resp as [|[] [[[recs|] t]|]]; simpl; try (intros H; now destruct H).
      intros _. eauto.
    + intros Ht. destruct resp as [|[] [[o []]|]]; simpl; auto.
  - intros evs sys body Hinv sys1 Hlast Hne. subst sys1.
    rewrite runSystem_tracker in *. simpl in *.
    destruct (runTracker_saveCalls evs (component sys)) as (new & Hnew).
    rewrite (newSaveCalls_app _ _ new Hnew) in *.
    rewrite armAll_last in Hlast.
    pose proof (runTracker_lastSaveCurrent evs _ Hinv) as Hcur.
    unfold lastSaveCurrent in Hcur. rewrite Hnew, last_app in Hcur.
    destruct (last new) as [p|] eqn:Hp; [|apply last_None in Hp; contradiction].
    simpl in Hlast. rewrite last_snoc in Hlast. injection Hlast as <-.
    destruct Hcur as [<- <-]. apply Hback.
Qed.

Lemma save_load_round_trip_witness :
  isTracking (mountEffect LoadFails (handleStartTracking initialTracker)) = true.
Proof.
  exact (proj2 (proj2 (proj2 (proj2
    (proj1 save_load_round_trip LoadFails (handleStartTracking initialTracker)))))
    eq_refl).
Defined.

(** * The axis labels of the trend chart *)

Section AxisLabelFacts.
Local Open Scope nat_scope.

Lemma labelLoop_spec fuel n step i :
  1 <= step ->
  Forall (fun j => i <= j < n) (labelLoop fuel n step i)
  /\ StronglySorted lt (labelLoop fuel n step i)
  /\ (length (labelLoop fuel n step i) - 1) * step + i < Nat.max n (S i).
Proof.
  intros Hstep. revert i. induction fuel as [|fuel IH]; intros i; simpl.
  - split; [constructor|]. split; [constructor|]. lia.
  - destruct (Nat.ltb_spec i n) as [Hlt|Hge].
    + destruct (IH (i + step)) as (Hall & Hs & Hlen).
      split; [|split].
      * constructor; [lia|].
        eapply List.Forall_impl; [|exact Hall]. simpl. intros j Hj. lia.
      * constructor; [exact Hs|].
        eapply List.Forall_impl; [|exact Hall]. simpl. intros j Hj. lia.
      * simpl length. destruct (labelLoop fuel n step (i + step)) as [|j l] eqn:E.
        -- simpl. lia.
        -- apply List.Forall_inv in Hall. simpl length in *. nia.
    + split; [constructor|]. split; [constructor|]. simpl. lia.
Qed.

(** The loop ends by its own test: more fuel changes nothing. *)
Lemma labelLoop_fuel fuel extra n step i :
  1 <= step -> n <= i + fuel ->
  labelLoop (fuel + extra) n step i = labelLoop fuel n step i.
Proof.
  intros Hstep. revert i. induction fuel as [|fuel IH]; intros i Hn; simpl.
  - destruct extra; simpl; [reflexivity|].
    destruct (Nat.ltb_spec i n); [lia | reflexivity].
  - destruct (Nat.ltb_spec i n); [|reflexivity].
    f_equal. apply IH. lia.
Qed.

Lemma labelLoop_head fuel n step :
  0 < n -> head (labelLoop (S fuel) n step 0) = Some 0.
Proof.
  intros Hn. simpl. destruct (Nat.ltb_spec 0 n); [reflexivity | lia].
Qed.

Lemma sorted_snoc (l : list nat) x :
  StronglySorted lt l -> Forall (fun j => j < x) l ->
  StronglySorted lt (l ++ [x]).
Proof.
  induction 1 as [|y l Hs IH Hall]; intros Hx; simpl.
  - repeat constructor.
  - apply List.Forall_cons_iff in Hx as [Hy Hx].
    constructor; [now apply IH|].
    apply Forall_app. split; [exact Hall | now repeat constructor].
Qed.

Lemma sorted_below_last (l : list nat) x :
  StronglySorted lt l -> last l = Some x -> Forall (fun j => j <= x) l.
Proof.
  induction 1 as [|y l Hs IH Hall]; intros Hlast; [constructor|].
  rewrite last_cons in Hlast. destruct (last l) as [z|] eqn:Hz.
  - injection Hlast as ->. specialize (IH eq_refl).
    constructor; [|exact IH].
    assert (Hin : In x l).
    { apply last_Some in Hz as (l' & ->). apply in_app_iff. right. now left. }
    rewrite List.Forall_forall in Hall. specialize (Hall x Hin). lia.
  - injection Hlast as ->. apply last_None in Hz. subst l.
    constructor; [lia | constructor].
Qed.

(** X21: for a chart of [n > 0] points the labelled indices start at [0],
    end at [n - 1], increase strictly and stay below [n], so every point
    looked up for a label exists and no label is drawn twice; there are at
    most twelve of them; and the loop that collects them ends by its own
    test, whatever the bound on its iterations. *)
Theorem axis_labels_in_range n :
  0 < n ->
  Forall (fun j => j < n) (xLabelIndices n)
  /\ StronglySorted lt (xLabelIndices n)
  /\ head (xLabelIndices n) = Some 0
  /\ last (xLabelIndices n) = Some (n - 1)
  /\ length (xLabelIndices n) <= 12
  /\ forall extra,
       labelLoop (n + extra) n (Nat.max 1 (n / 6)) 0
       = labelLoop n n (Nat.max 1 (n / 6)) 0.
Proof.
  intros Hn. unfold xLabelIndices.
  destruct (Nat.ltb_spec 0 n) as [_|?]; [|lia].
  set (step := Nat.max 1 (n / 6)).
  assert (Hstep : 1 <= step) by (unfold step; lia).
  destruct (labelLoop_spec n n step 0 Hstep) as (Hall & Hs & Hlen).
  assert (Hhead : head (labelLoop n n step 0) = Some 0).
  { destruct n as [|m]; [lia|]. now apply labelLoop_head. }
  assert (Hcount : length (labelLoop n n step 0) <= 11).
  { pose proof (Nat.div_mod_eq n 6) as Hdm.
    pose proof (Nat.mod_upper_bound n 6 ltac:(lia)) as Hr.
    destruct (Nat.le_gt_cases (length (labelLoop n n step 0)) 11) as [?|Hbig];
      [assumption|].
    assert (11 * step < n) by nia. unfold step in *. lia. }
  assert (Hfuel : forall extra, labelLoop (n + extra) n step 0 = labelLoop n n step 0)
    by (intros extra; apply labelLoop_fuel; lia).
  case_bool_decide as Hlast.
  - split; [|split; [exact Hs|split; [exact Hhead|split; [exact Hlast|]]]].
    + eapply List.Forall_impl; [|exact Hall]. simpl. intros j Hj. lia.
    + split; [lia | exact Hfuel].
  - destruct (last (labelLoop n n step 0)) as [x|] eqn:Hx.
    + pose proof (sorted_below_last _ _ Hs Hx) as Hbelow.
      assert (Hxn : x < n - 1).
      { assert (Hin : In x (labelLoop n n step 0)).
        { apply last_Some in Hx as (l' & ->). apply in_app_iff. right. now left. }
        rewrite List.Forall_forall in Hall. specialize (Hall x Hin).
        assert (x <> n - 1) by congruence. lia. }
      split; [|split; [|split; [|split; [|split]]]].
      * apply Forall_app. split.
        -- eapply List.Forall_impl; [|exact Hall]. simpl. intros j Hj. lia.
        -- constructor; [lia | constructor].
      * apply sorted_snoc; [exact Hs|].
        eapply List.Forall_impl; [|exact Hbelow]. simpl. intros j Hj. lia.
      * destruct (labelLoop n n step 0); [discriminate | exact Hhead].
      * apply last_snoc.
      * rewrite length_app. simpl. lia.
      * exact Hfuel.
    + apply last_None in Hx. rewrite Hx in Hhead. discriminate.
Qed.

Lemma axis_labels_in_range_witness :
  xLabelIndices 14 = [0; 2; 4; 6; 8; 10; 12; 13]
  /\ last (xLabelIndices 14) = Some 13.
Proof.
  split; [reflexivity|].
  apply (proj1 (proj2 (proj2 (proj2 (axis_labels_in_range 14 ltac:(lia)))))).
Defined.

End AxisLabelFacts.
